(** * RFC 7807 problem details: the [problems] package

    A shallow embedding of the Go package [problems] (type [Problem], its
    constructors [New], [FromError], [FromErrorWithStatus], [Wrap], the
    generic setter [Set], and the flattening [Marshal] / [Unmarshal]) and the
    properties of its attribute model.

    Conventions of the model.
    - A Go [string] is a [string] of bytes.  Field names, keys and render
      types are ASCII text; [strings_Title] and [strings_ToLower] are the Go
      functions on ASCII text (a byte above 127 is left as it is).
    - A [*Problem] is a location in a heap of [Problem] records, so that
      mutation through the pointer and pointer identity are explicit.
    - [encoding/json] and the order in which [range] walks a map are not part
      of the package: they enter through the class [Encoding]. *)

From Stdlib Require Import ZArith NArith Ascii String Lia.
From stdpp Require Import base option list gmap strings fin_maps sorting.

Local Open Scope Z_scope.

(** ** Bytes and ASCII classes *)

Definition code (c : ascii) : N := N_of_ascii c.

Definition is_upper (c : ascii) : bool := ((65 <=? code c) && (code c <=? 90))%N.
Definition is_lower (c : ascii) : bool := ((97 <=? code c) && (code c <=? 122))%N.
Definition is_digit (c : ascii) : bool := ((48 <=? code c) && (code c <=? 57))%N.

(** [unicode.ToTitle] and [unicode.ToLower] on an ASCII rune. *)
Definition unicode_ToTitle (c : ascii) : ascii :=
  if is_lower c then ascii_of_N (code c - 32) else c.

Definition unicode_ToLower (c : ascii) : ascii :=
  if is_upper c then ascii_of_N (code c + 32) else c.

(** [strings.isSeparator]: ASCII alphanumerics and underscore are not
    separators; every other ASCII rune is. *)
Definition isSeparator (c : ascii) : bool :=
  if (code c <=? 127)%N
  then negb (is_digit c || is_lower c || is_upper c || (code c =? 95)%N)
  else false.

(** [strings.Title]: the rune that begins a word is mapped to title case;
    [prev] is the rune before the current one and starts as a space. *)
Fixpoint Title_from (prev : ascii) (s : string) : string :=
  match s with
  | EmptyString => EmptyString
  | String r s' =>
      String (if isSeparator prev then unicode_ToTitle r else r) (Title_from r s')
  end.

Definition strings_Title (s : string) : string := Title_from " "%char s.

(** [strings.ToLower]. *)
Fixpoint strings_ToLower (s : string) : string :=
  match s with
  | EmptyString => EmptyString
  | String c s' => String (unicode_ToLower c) (strings_ToLower s')
  end.

(** [strings.HasSuffix]. *)
Definition strings_HasSuffix (s suffix : string) : bool :=
  let n := String.length s in
  let k := String.length suffix in
  (k <=? n)%nat && String.eqb (String.substring (n - k) k s) suffix.

(** [strings.Split(s, sep)] for a one-byte separator. *)
Fixpoint split_on (sep : ascii) (cur : string) (s : string) : list string :=
  match s with
  | EmptyString => [String.rev cur]
  | String c s' =>
      if Ascii.eqb c sep then String.rev cur :: split_on sep EmptyString s'
      else split_on sep (String c cur) s'
  end.

Definition strings_Split (s : string) (sep : ascii) : list string :=
  split_on sep EmptyString s.

(** ** Decimal text: [strconv.Itoa] and the digits behind [strconv.Atoi] *)

Definition digit_char (d : N) : ascii := ascii_of_N (48 + d).
Definition digit_val (c : ascii) : N := (code c - 48)%N.

Fixpoint digits_from (fuel : nat) (n : N) (acc : string) : string :=
  match fuel with
  | O => acc
  | S fuel' =>
      let acc' := String (digit_char (n mod 10)) acc in
      if (n <? 10)%N then acc' else digits_from fuel' (n / 10) acc'
  end.

Definition digits (n : N) : string :=
  digits_from (S (N.to_nat (N.log2 n))) n EmptyString.

Definition strconv_Itoa (z : Z) : string :=
  if z <? 0 then String "-"%char (digits (Z.abs_N z)) else digits (Z.to_N z).

Fixpoint parse_digits (s : string) (acc : N) : option N :=
  match s with
  | EmptyString => Some acc
  | String c s' =>
      if is_digit c then parse_digits s' (10 * acc + digit_val c)%N else None
  end.

(** The number a decimal integer literal denotes: an optional sign and at
    least one digit, nothing else. *)
Definition parse_int (s : string) : option Z :=
  match s with
  | EmptyString => None
  | String c rest =>
      let neg := Ascii.eqb c "-"%char in
      let body := if neg || Ascii.eqb c "+"%char then rest else s in
      match body with
      | EmptyString => None
      | _ =>
          n ← parse_digits body 0%N;
          Some (if neg then - Z.of_N n else Z.of_N n)
      end
  end.


(** ** [net/http.StatusText] *)

Definition http_StatusText (status : Z) : string :=
  match status with
  | 100 => "Continue"
  | 101 => "Switching Protocols"
  | 102 => "Processing"
  | 103 => "Early Hints"
  | 200 => "OK"
  | 201 => "Created"
  | 202 => "Accepted"
  | 203 => "Non-Authoritative Information"
  | 204 => "No Content"
  | 205 => "Reset Content"
  | 206 => "Partial Content"
  | 207 => "Multi-Status"
  | 208 => "Already Reported"
  | 226 => "IM Used"
  | 300 => "Multiple Choices"
  | 301 => "Moved Permanently"
  | 302 => "Found"
  | 303 => "See Other"
  | 304 => "Not Modified"
  | 305 => "Use Proxy"
  | 307 => "Temporary Redirect"
  | 308 => "Permanent Redirect"
  | 400 => "Bad Request"
  | 401 => "Unauthorized"
  | 402 => "Payment Required"
  | 403 => "Forbidden"
  | 404 => "Not Found"
  | 405 => "Method Not Allowed"
  | 406 => "Not Acceptable"
  | 407 => "Proxy Authentication Required"
  | 408 => "Request Timeout"
  | 409 => "Conflict"
  | 410 => "Gone"
  | 411 => "Length Required"
  | 412 => "Precondition Failed"
  | 413 => "Request Entity Too Large"
  | 414 => "Request URI Too Long"
  | 415 => "Unsupported Media Type"
  | 416 => "Requested Range Not Satisfiable"
  | 417 => "Expectation Failed"
  | 418 => "I'm a teapot"
  | 421 => "Misdirected Request"
  | 422 => "Unprocessable Entity"
  | 423 => "Locked"
  | 424 => "Failed Dependency"
  | 425 => "Too Early"
  | 426 => "Upgrade Required"
  | 428 => "Precondition Required"
  | 429 => "Too Many Requests"
  | 431 => "Request Header Fields Too Large"
  | 451 => "Unavailable For Legal Reasons"
  | 500 => "Internal Server Error"
  | 501 => "Not Implemented"
  | 502 => "Bad Gateway"
  | 503 => "Service Unavailable"
  | 504 => "Gateway Timeout"
  | 505 => "HTTP Version Not Supported"
  | 506 => "Variant Also Negotiates"
  | 507 => "Insufficient Storage"
  | 508 => "Loop Detected"
  | 510 => "Not Extended"
  | 511 => "Network Authentication Required"
  | _ => ""
  end.

(** ** Values held in an [interface{}]

    The dynamic values the package stores and prints: [nil], [bool], [int],
    [float64] (holding an integer, which is what decoding a JSON integer
    gives), [string], [[]byte], slices, and maps with string keys (entries
    listed in key order, the order in which [fmt] and [encoding/json] print a
    map). *)

#[local] Set Warnings "-register-all".
Inductive value : Type :=
| VNil
| VBool (b : bool)
| VInt (n : Z)
| VFloat (n : Z)
| VString (s : string)
| VBytes (b : string)
| VSlice (l : list value)
| VMap (m : list (string * value)).

Fixpoint join_with (sep : string) (l : list string) : string :=
  match l with
  | [] => ""
  | [x] => x
  | x :: l' => x +:+ sep +:+ join_with sep l'
  end.

Fixpoint strip_zeros_rev (s : string) : string :=
  match s with
  | String "0"%char s' => strip_zeros_rev s'
  | _ => s
  end.

(** The significant digits of a decimal numeral: trailing zeros dropped. *)
Definition significant (ds : string) : string :=
  String.rev (strip_zeros_rev (String.rev ds)).

(** [%v] of a [float64] that holds the integer [n] (format [g], shortest
    digits): plain decimal below 10^6 in magnitude, and mantissa with a
    two-digit-or-more exponent from there on.  The digits are those of [n],
    which are the shortest ones while [n] is exactly representable. *)
Definition format_float (n : Z) : string :=
  if Z.abs n <? 10 ^ 6 then strconv_Itoa n
  else
    let ds := digits (Z.abs_N n) in
    let exp := (String.length ds - 1)%nat in
    let mant :=
      match significant ds with
      | String d EmptyString => String d EmptyString
      | String d rest => String d ("." +:+ rest)
      | EmptyString => EmptyString
      end in
    (if n <? 0 then "-" else "") +:+ mant +:+ "e+" +:+
      (if (exp <? 10)%nat then "0" else "") +:+ digits (N.of_nat exp).

(** [fmt.Sprint] of one operand. *)
Fixpoint fmt_Sprint (v : value) : string :=
  match v with
  | VNil => "<nil>"
  | VBool b => if b then "true" else "false"
  | VInt n => strconv_Itoa n
  | VFloat n => format_float n
  | VString s => s
  | VBytes b =>
      "[" +:+ join_with " "
        (map (λ c, digits (code c)) (list_ascii_of_string b)) +:+ "]"
  | VSlice l =>
      "[" +:+ join_with " "
        ((fix each (l : list value) : list string :=
            match l with
            | [] => []
            | x :: l' => fmt_Sprint x :: each l'
            end) l) +:+ "]"
  | VMap m =>
      "map[" +:+ join_with " "
        ((fix each (m : list (string * value)) : list string :=
            match m with
            | [] => []
            | (k, x) :: m' => (k +:+ ":" +:+ fmt_Sprint x) :: each m'
            end) m) +:+ "]"
  end.

(** The nearest [float64] to an integer (round half to even at 53 bits). *)
Definition float64_of_int (n : Z) : Z :=
  let a := Z.abs n in
  let k := Z.log2 a - 52 in
  if k <=? 0 then n
  else
    let q := a / 2 ^ k in
    let r := a mod 2 ^ k in
    let half := 2 ^ (k - 1) in
    let q' := if r <? half then q
              else if half <? r then q + 1
              else if Z.even q then q else q + 1 in
    Z.sgn n * (q' * 2 ^ k).

(** [encoding/base64.StdEncoding], the text [encoding/json] gives a [[]byte]. *)
Definition base64_alphabet : string :=
  "ABCDEFGHIJKLMNOPQRSTUVWXYZabcdefghijklmnopqrstuvwxyz0123456789+/".

Definition base64_char (i : N) : ascii :=
  default "="%char (String.get (N.to_nat i) base64_alphabet).

Fixpoint base64_encode (b : list N) : string :=
  match b with
  | [] => ""
  | [x] =>
      let n := (x * 65536)%N in
      String (base64_char (n / 262144))
        (String (base64_char ((n / 4096) mod 64)) "==")
  | [x; y] =>
      let n := (x * 65536 + y * 256)%N in
      String (base64_char (n / 262144))
        (String (base64_char ((n / 4096) mod 64))
           (String (base64_char ((n / 64) mod 64)) "="))
  | x :: y :: z :: b' =>
      let n := (x * 65536 + y * 256 + z)%N in
      String (base64_char (n / 262144))
        (String (base64_char ((n / 4096) mod 64))
           (String (base64_char ((n / 64) mod 64))
              (String (base64_char (n mod 64)) (base64_encode b'))))
  end.

(** What a value has become once [json.Marshal] has written it and
    [json.Unmarshal] has read it back into an [interface{}]: numbers come back
    as [float64], a [[]byte] as its base64 text, slices and maps entry by
    entry. *)
Fixpoint json_image (v : value) : value :=
  match v with
  | VNil => VNil
  | VBool b => VBool b
  | VInt n => VFloat (float64_of_int n)
  | VFloat n => VFloat n
  | VString s => VString s
  | VBytes b => VString (base64_encode (map code (list_ascii_of_string b)))
  | VSlice l =>
      VSlice ((fix each (l : list value) : list value :=
                 match l with
                 | [] => []
                 | x :: l' => json_image x :: each l'
                 end) l)
  | VMap m =>
      VMap ((fix each (m : list (string * value)) : list (string * value) :=
               match m with
               | [] => []
               | (k, x) :: m' => (k, json_image x) :: each m'
               end) m)
  end.


(** ** Errors, problems and the heap *)

(** A [*Problem] is an index into the heap. *)
Abbreviation loc := nat (only parsing).

(** A Go [error]: a [*Problem], an error known by its message alone
    ([errors.New], an error of a library), or the result of
    [fmt.Errorf("...%w", inner)], whose message was fixed when it was built. *)
Inductive error : Type :=
| ErrProblem (prob : loc)
| ErrText (msg : string)
| ErrWrap (msg : string) (inner : error).

Inductive result (A : Type) : Type :=
| Ok (a : A)
| Err (e : error).
Arguments Ok {A} a.
Arguments Err {A} e.

Definition renderType := string.
Definition jsonType : renderType := "json".
Definition xmlType : renderType := "xml".

(** Problem is an RFC7807 representation of an error.  [Attributes] is
    [None] for a nil map. *)
Record Problem : Type := mkProblem {
  Type_ : string;
  Title : string;
  Status : Z;
  Detail : string;
  Instance : string;
  Attributes : option (gmap string value);
  err : option error
}.

(** [Problem{}] *)
Definition zero_Problem : Problem :=
  mkProblem "" "" 0 "" "" None None.

Definition set_Type (x : string) (p : Problem) : Problem :=
  mkProblem x (Title p) (Status p) (Detail p) (Instance p) (Attributes p) (err p).
Definition set_Title (x : string) (p : Problem) : Problem :=
  mkProblem (Type_ p) x (Status p) (Detail p) (Instance p) (Attributes p) (err p).
Definition set_Status (x : Z) (p : Problem) : Problem :=
  mkProblem (Type_ p) (Title p) x (Detail p) (Instance p) (Attributes p) (err p).
Definition set_Detail (x : string) (p : Problem) : Problem :=
  mkProblem (Type_ p) (Title p) (Status p) x (Instance p) (Attributes p) (err p).
Definition set_Instance (x : string) (p : Problem) : Problem :=
  mkProblem (Type_ p) (Title p) (Status p) (Detail p) x (Attributes p) (err p).
Definition set_Attributes (x : option (gmap string value)) (p : Problem) : Problem :=
  mkProblem (Type_ p) (Title p) (Status p) (Detail p) (Instance p) x (err p).
Definition set_err (x : option error) (p : Problem) : Problem :=
  mkProblem (Type_ p) (Title p) (Status p) (Detail p) (Instance p) (Attributes p) x.

(** The entries a [range] over the map visits: none for a nil map. *)
Definition attrs (p : Problem) : gmap string value := default ∅ (Attributes p).

(** The program state: the problems allocated so far, and what has been
    printed on standard output. *)
Record world : Type := mkWorld {
  heap : list Problem;
  stdout : list string
}.

(** ** What the package takes from outside

    [json.Marshal] and [json.Unmarshal] on a [map[string]interface{}] (an
    error they return is an error of the library, never a [*Problem]),
    [json.Indent] as [json.MarshalIndent] applies it, [strconv.Quote] (used
    in the message of a [*strconv.NumError]), and the order in which a
    [range] statement visits the entries of a map, which Go leaves open. *)
Class Encoding : Type := {
  json_Marshal : gmap string value → result string;
  json_Unmarshal : string → result (gmap string value);
  json_Indent : string → string;
  strconv_Quote : string → string;
  range_order : gmap string value → list (string * value);
  range_order_perm : ∀ m, range_order m ≡ₚ map_to_list m;
  json_Marshal_error : ∀ out e l, json_Marshal out = Err e → e ≠ ErrProblem l;
  json_Unmarshal_error : ∀ data e l, json_Unmarshal data = Err e → e ≠ ErrProblem l
}.

(** [xml.Marshal] has no encoding for a map and [xml.Unmarshal] no decoding
    into one: on a [map[string]interface{}] both return an error. *)
Definition xml_Marshal (out : gmap string value) : result string :=
  Err (ErrText "xml: unsupported type: map[string]interface {}").

Definition xml_Unmarshal (data : string) : result (gmap string value) :=
  Err (ErrText "unknown type map[string]interface {}").

(** [strconv.Atoi] for a 64-bit [int]. *)
Definition strconv_Atoi `{Encoding} (s : string) : result Z :=
  match parse_int s with
  | None =>
      Err (ErrText ("strconv.Atoi: parsing " +:+ strconv_Quote s +:+ ": invalid syntax"))
  | Some z =>
      if (- 2 ^ 63 <=? z) && (z <? 2 ^ 63) then Ok z
      else Err (ErrText ("strconv.Atoi: parsing " +:+ strconv_Quote s +:+ ": value out of range"))
  end.

(** ** The state monad of the model

    A computation reads and writes the [world]; [None] is a run that does not
    return: a pointer outside the heap is dereferenced, or the recursion of
    [Marshal] through causes does not end within the given depth. *)
Definition M (A : Type) : Type := world → option (A * world).

Definition ret {A} (a : A) : M A := λ w, Some (a, w).

Definition bind {A B} (m : M A) (k : A → M B) : M B :=
  λ w, match m w with
       | Some (a, w') => k a w'
       | None => None
       end.

Notation "x <- m ;; k" := (bind m (λ x, k))
  (at level 100, m at next level, right associativity).
Notation "m ;; k" := (bind m (λ _, k))
  (at level 100, right associativity).

Definition stuck {A} : M A := λ _, None.

(** [*prob] read *)
Definition load (prob : loc) : M Problem :=
  λ w, match heap w !! prob with
       | Some p => Some (p, w)
       | None => None
       end.

(** [*prob] updated in place by [f] *)
Definition modify (prob : loc) (f : Problem → Problem) : M unit :=
  λ w, match heap w !! prob with
       | Some p => Some (tt, mkWorld (<[prob := f p]> (heap w)) (stdout w))
       | None => None
       end.

(** [&p] for a fresh [p] *)
Definition alloc (p : Problem) : M loc :=
  λ w, Some (length (heap w), mkWorld (heap w ++ [p]) (stdout w)).

(** [fmt.Println] *)
Definition Println (line : string) : M unit :=
  λ w, Some (tt, mkWorld (heap w) (stdout w ++ [line])).

(** ** The package *)

(** The fields of [Problem] as [reflect] lists them, each with its struct
    tag as a table from tag key to tag value. *)
Record StructField : Type := mkField {
  Name : string;
  Tag : list (string * string)
}.

Definition Problem_fields : list StructField :=
  [ mkField "Type" [("json", "type,omitempty")];
    mkField "Title" [];
    mkField "Status" [];
    mkField "Detail" [];
    mkField "Instance" [("json", "instance,omitempty")];
    mkField "Attributes" [("json", "vars,omitempty"); ("xml", "vars,omitempty")];
    mkField "err" [] ].

(** [field.Tag.Lookup(key)] *)
Fixpoint Tag_Lookup (tag : list (string * string)) (key : string) : option string :=
  match tag with
  | [] => None
  | (k, v) :: tag' => if String.eqb k key then Some v else Tag_Lookup tag' key
  end.

(** [subjectValue.FieldByName(name).Interface()] *)
Definition FieldByName (p : Problem) (name : string) : value :=
  if String.eqb name "Type" then VString (Type_ p)
  else if String.eqb name "Title" then VString (Title p)
  else if String.eqb name "Status" then VInt (Status p)
  else if String.eqb name "Detail" then VString (Detail p)
  else if String.eqb name "Instance" then VString (Instance p)
  else if String.eqb name "Attributes" then VMap (map_to_list (attrs p))
  else VNil.

Section Package.
Context `{Encoding}.

(** New initializes a problem *)
Definition New (status : Z) (message : string) : M loc :=
  alloc (set_Detail message (set_Status status zero_Problem)).

(** Error returns a string representation of the problem to meet the Error
    interface definition *)
Definition Problem_Error (prob : loc) : M string :=
  p <- load prob ;;
  ret (strconv_Itoa (Status p) +:+ ": " +:+ Detail p).

(** [err.Error()] on any error value *)
Definition error_Error (e : error) : M string :=
  match e with
  | ErrProblem prob => Problem_Error prob
  | ErrText msg => ret msg
  | ErrWrap msg _ => ret msg
  end.

(** Unwrap returns the underlying error or nil *)
Definition Unwrap (prob : loc) : M (option error) :=
  p <- load prob ;;
  ret (err p).

(** StatusCode returns the status of the problem *)
Definition StatusCode (prob : loc) : M Z :=
  p <- load prob ;;
  ret (Status p).

(** Title returns the title of the problem or a default *)
Definition GetTitle (prob : loc) : M string :=
  p <- load prob ;;
  if (String.length (Title p) =? 0)%nat then ret (http_StatusText (Status p))
  else ret (Title p).

(** FromErrorWithStatus creates a new problem from the provided error but
    sets the status to the one provided rather than the default of 500. *)
Definition FromErrorWithStatus (status : Z) (e : error) : M loc :=
  msg <- error_Error e ;;
  prob <- New status msg ;;
  msg' <- error_Error e ;;
  modify prob (set_err (Some (ErrWrap ("Problem: " +:+ msg') e))) ;;
  ret prob.

(** FromError creates a new problem from the provided error *)
Definition FromError (e : error) : M loc :=
  FromErrorWithStatus 500 e.

(** Wrap creates a Problem that wraps a standard error *)
Definition Wrap (e : error) : M loc :=
  match e with
  | ErrProblem problem => ret problem
  | _ =>
      prob <- FromError e ;;
      ret prob
  end.

(** The loop of [Marshal] over the fields of the struct. *)
Definition Marshal_fields (renderAs : renderType) (p : Problem) : gmap string value :=
  foldl
    (λ out field,
       let name := Name field in
       if negb (String.eqb name "Attributes") && negb (String.eqb name "err") then
         let key := default name (Tag_Lookup (Tag field) renderAs) in
         if strings_HasSuffix key "omitempty"
            && (String.length (fmt_Sprint (FieldByName p name)) =? 0)%nat
         then out
         else
           let key := default "" (head (strings_Split key ","%char)) in
           let key := strings_ToLower key in
           <[key := FieldByName p name]> out
       else out)
    ∅ Problem_fields.

(** The loop of [Marshal] over [prob.Attributes], in the order [range]
    yields the entries. *)
Definition Marshal_attributes (out : gmap string value)
    (entries : list (string * value)) : gmap string value :=
  foldl (λ out kv, <[strings_ToLower kv.1 := kv.2]> out) out entries.

(** The closing [switch renderAs] of [Marshal]. *)
Definition Marshal_encode (renderAs : renderType) (out : gmap string value)
    : M (result string) :=
  if String.eqb renderAs jsonType then ret (json_Marshal out)
  else if String.eqb renderAs xmlType then ret (xml_Marshal out)
  else
    e <- New 500 "Invalid Marshal type specified" ;;
    ret (Err (ErrProblem e)).

(** [Marshal]; [depth] bounds the nesting of calls through causes that are
    problems themselves ([problem.MarshalJSON()]). *)
Fixpoint Marshal (depth : nat) (prob : loc) (renderAs : renderType)
    : M (result string) :=
  match depth with
  | O => stuck
  | S depth' =>
      p <- load prob ;;
      (if String.eqb (Type_ p) "" then modify prob (set_Type "about:blank")
       else ret tt) ;;
      title <- GetTitle prob ;;
      modify prob (set_Title title) ;;
      p <- load prob ;;
      let out := Marshal_fields renderAs p in
      out <-
        match err p with
        | Some e =>
            if negb (String.eqb (Type_ p) "about:blank") then
              out <-
                match e with
                | ErrProblem problem =>
                    r <- Marshal depth' problem jsonType ;;
                    match r with
                    | Ok j => ret (<["error" := VBytes j]> out)
                    | Err _ => ret out
                    end
                | _ => ret out
                end ;;
              msg <- error_Error e ;;
              ret (<["error" := VString msg]> out)
            else ret out
        | None => ret out
        end ;;
      p <- load prob ;;
      let out := Marshal_attributes out (range_order (attrs p)) in
      Marshal_encode renderAs out
  end.

Definition MarshalJSON (depth : nat) (prob : loc) : M (result string) :=
  Marshal depth prob jsonType.

Definition MarshalXML (depth : nat) (prob : loc) : M (result string) :=
  Marshal depth prob xmlType.

(** [PrettyPrint]: [json.MarshalIndent] calls the problem's [MarshalJSON]
    and indents what it returns. *)
Definition PrettyPrint (depth : nat) (prob : loc) : M unit :=
  r <- MarshalJSON depth prob ;;
  match r with
  | Err e =>
      msg <- error_Error e ;;
      Println ("json: error calling MarshalJSON for type *problems.Problem: " +:+ msg)
  | Ok pp => Println (json_Indent pp)
  end.

(** Set sets the extended attribute identified by key to value.
    Setting anything other than the basic attributes requires a type other
    than [about:blank]. *)
Definition Set_ (depth : nat) (prob : loc) (key : string) (v : value)
    : M (option error) :=
  let k := strings_Title key in
  if String.eqb k "Title" then
    modify prob (set_Title (fmt_Sprint v)) ;; ret None
  else if String.eqb k "Status" then
    e <- New 500 "Cannot set status with Set" ;;
    ret (Some (ErrProblem e))
  else if String.eqb k "Type" then
    modify prob (set_Type (fmt_Sprint v)) ;; ret None
  else if String.eqb k "Detail" then
    modify prob (set_Detail (fmt_Sprint v)) ;; ret None
  else if String.eqb k "Instance" then
    modify prob (set_Instance (fmt_Sprint v)) ;; ret None
  else
    p <- load prob ;;
    if String.eqb (Type_ p) "" || String.eqb (Type_ p) "about:blank" then
      e <- FromError (ErrProblem prob) ;;
      modify e (set_Detail "Cannot set extended attributes unless Type is set") ;;
      PrettyPrint depth e ;;
      ret (Some (ErrProblem e))
    else
      (match Attributes p with
       | None => modify prob (set_Attributes (Some ∅))
       | Some _ => ret tt
       end) ;;
      modify prob (λ p, set_Attributes (Some (<[key := v]> (attrs p))) p) ;;
      ret None.

(** The body of the loop of [Unmarshal] for one entry of the decoded map:
    [Some e] when the body returns [e], [None] when the loop goes on. *)
Definition Unmarshal_entry (prob : loc) (k : string) (v : value)
    : M (option error) :=
  let t := strings_Title k in
  if String.eqb t "Type" then
    modify prob (set_Type (fmt_Sprint v)) ;; ret None
  else if String.eqb t "Title" then
    modify prob (set_Title (fmt_Sprint v)) ;; ret None
  else if String.eqb t "Status" then
    match strconv_Atoi (fmt_Sprint v) with
    | Err e =>
        r <- FromError e ;;
        ret (Some (ErrProblem r))
    | Ok stat => modify prob (set_Status stat) ;; ret None
    end
  else if String.eqb t "Detail" then
    modify prob (set_Detail (fmt_Sprint v)) ;; ret None
  else if String.eqb t "Instance" then
    modify prob (set_Instance (fmt_Sprint v)) ;; ret None
  else
    modify prob (λ p, set_Attributes (Some (<[k := v]> (attrs p))) p) ;; ret None.

Fixpoint Unmarshal_range (prob : loc) (entries : list (string * value))
    : M (option error) :=
  match entries with
  | [] => ret None
  | (k, v) :: entries' =>
      r <- Unmarshal_entry prob k v ;;
      match r with
      | Some e => ret (Some e)
      | None => Unmarshal_range prob entries'
      end
  end.

Definition Unmarshal (prob : loc) (renderAs : renderType) (data : string)
    : M (option error) :=
  let failed (e : error) : M (option error) :=
    r <- FromError e ;;
    ret (Some (ErrProblem r)) in
  let decoded (target : gmap string value) : M (option error) :=
    modify prob (set_Attributes (Some ∅)) ;;
    Unmarshal_range prob (range_order target) in
  if String.eqb renderAs jsonType then
    match json_Unmarshal data with
    | Err e => failed e
    | Ok target => decoded target
    end
  else if String.eqb renderAs xmlType then
    match xml_Unmarshal data with
    | Err e => failed e
    | Ok target => decoded target
    end
  else
    r <- New 500 (renderAs +:+ " is an invalid type") ;;
    ret (Some (ErrProblem r)).


Definition UnmarshalXML (prob : loc) (data : string) : M (option error) :=
  Unmarshal prob xmlType data.

End Package.

(** ** Rendering as an HTTP response

    [http.ResponseWriter] is an interface: the package calls its methods and
    knows nothing of the writer behind them.  A writer is a state of some
    type [W] with the three methods [Render] uses. *)
Class ResponseWriter (W : Type) : Type := {
  (** [w.Header().Set(key, value)] *)
  Header_Set : string → string → W → W;
  (** [w.WriteHeader(statusCode)] *)
  ResponseWriter_WriteHeader : Z → W → W;
  (** [w.Write(data)], with the error it returns *)
  ResponseWriter_Write : string → W → W * option error
}.

(** ProblemMediaType is the default media type for a Problem response *)
Definition ProblemMediaType : string := "application/problem+json".

Definition newline : string := String (ascii_of_N 10) "".

Section Rendering.
Context `{Encoding} `{ResponseWriter W}.

(** [json.NewEncoder(w).Encode(prob)]: the encoder calls the problem's
    [MarshalJSON]; an error of that call comes back inside a
    [*json.MarshalerError] and nothing is written; otherwise the bytes, which
    [json.Marshal] has already made compact, are written with a newline
    after them in one call of [Write], whose error is the result. *)
Definition Encoder_Encode (depth : nat) (prob : loc) (w : W) : M (W * option error) :=
  r <- MarshalJSON depth prob ;;
  match r with
  | Err e =>
      msg <- error_Error e ;;
      ret (w, Some (ErrWrap
                      ("json: error calling MarshalJSON for type *problems.Problem: " +:+ msg)
                      e))
  | Ok b => ret (ResponseWriter_Write (b +:+ newline) w)
  end.

(** Render will output the error as an HTTP response *)
Definition Render (depth : nat) (prob : loc) (w : W) : M (W * option error) :=
  let w := Header_Set "Content-Type" ProblemMediaType w in
  p <- load prob ;;
  let w := if negb (Status p =? 0) then ResponseWriter_WriteHeader (Status p) w else w in
  Encoder_Encode depth prob w.

End Rendering.

(** ** The catalog of standard problems *)

Definition TypeNoAccessToken : string := "urn:problem-type:noAccessToken".
Definition TypeInvalidToken : string := "urn:problem-type:invalidAccessToken".
Definition TypeTokenExpired : string := "urn:problem-type:expiredAccessToken".
Definition TypeMissingScope : string := "urn:problem-type:missingScope".
Definition TypeMissingPermission : string := "urn:problem-type:missingPermission".
Definition TypeNotFound : string := "urn:problem-type:resourceNotFound".
Definition TypeBadRequest : string := "urn:problem-type:badRequest".
Definition TypeSchemaViolation : string :=
  "urn:problem-type:input-validation:schemaViolation".
Definition TypeUnknownParameter : string :=
  "urn:problem-type:input-validation:unknownParameter".
Definition TypeInternalServerError : string := "urn:problem-type:internalServerError".
Definition TypeConflict : string := "urn:problem-type:conflict".

Definition http_StatusInternalServerError : Z := 500.

Section Catalog.
Context `{Encoding}.

(** Each constructor drops what [Set] returns ([_ = prob.Set(...)]). *)

Definition GetNoAccessResponse (depth : nat) : M loc :=
  prob <- New 401 "No Bearer access token found in Authorization HTTP header" ;;
  modify prob (set_Type TypeNoAccessToken) ;;
  Set_ depth prob "Title" (VString "No Access Token") ;;
  ret prob.

Definition GetInvalidTokenResponse (depth : nat) : M loc :=
  prob <- New 401
    "The Bearer access token found in the Authorization HTTP header is invalid" ;;
  Set_ depth prob "Title" (VString "Invalid Access Token") ;;
  Set_ depth prob "Type" (VString TypeInvalidToken) ;;
  ret prob.

Definition GetExpiredTokenResponse (depth : nat) : M loc :=
  prob <- New 401
    "The Bearer access token found in the Authorization HTTP header has expired" ;;
  Set_ depth prob "Type" (VString TypeTokenExpired) ;;
  Set_ depth prob "Title" (VString "Expired Access Token") ;;
  ret prob.

(** [scopes] is a [[]string]. *)
Definition GetMissingScopeResponse (depth : nat) (scopes : list string) : M loc :=
  prob <- New 403 "Forbidden to consult the resource" ;;
  Set_ depth prob "Type" (VString TypeMissingScope) ;;
  Set_ depth prob "Title" (VString "Missing Scope") ;;
  Set_ depth prob "requiredScopes" (VSlice (VString <$> scopes)) ;;
  ret prob.

Definition GetMissingPermission (depth : nat) : M loc :=
  prob <- New 403 "Not permitted to update the details of this resource" ;;
  Set_ depth prob "Type" (VString TypeMissingPermission) ;;
  Set_ depth prob "Title" (VString "Missing Permission") ;;
  ret prob.

Definition GetInternalErrorResponse (depth : nat) (detail : string) : M loc :=
  prob <- New http_StatusInternalServerError detail ;;
  Set_ depth prob "Type" (VString TypeInternalServerError) ;;
  Set_ depth prob "Title" (VString (http_StatusText http_StatusInternalServerError)) ;;
  ret prob.

Definition GetErrorResponseFromError (depth : nat) (e : error) : M loc :=
  prob <- FromError e ;;
  Set_ depth prob "Type" (VString TypeInternalServerError) ;;
  ret prob.

End Catalog.

(** * Specification

    The notions in which the properties of the package are stated. *)

Fixpoint no_separator (s : string) : bool :=
  match s with
  | EmptyString => true
  | String c s' => negb (isSeparator c) && no_separator s'
  end.


(** What [Marshal] leaves in place of a problem: the type defaulted, the
    title resolved. *)
Definition normalize (p : Problem) : Problem :=
  let p := if String.eqb (Type_ p) "" then set_Type "about:blank" p else p in
  set_Title (if (String.length (Title p) =? 0)%nat
             then http_StatusText (Status p) else Title p) p.

(** The cause that [Marshal] serializes first, if there is one. *)
Definition nests (p : Problem) : option loc :=
  match err p with
  | Some (ErrProblem l') =>
      if String.eqb (Type_ p) "" || String.eqb (Type_ p) "about:blank"
      then None else Some l'
  | _ => None
  end.

(** The chain of causes that [Marshal] follows from [l] ends within [n]
    nested calls. *)
Fixpoint ends_within (h : list Problem) (n : nat) (l : loc) : bool :=
  match h !! l with
  | None => false
  | Some p =>
      match nests p with
      | None => true
      | Some l' =>
          match n with
          | O => false
          | S n' => ends_within h n' l'
          end
      end
  end.

(** [h'] is [h] with some of its problems normalized. *)
Definition settles (h h' : list Problem) : Prop :=
  length h' = length h ∧
  ∀ l p, h !! l = Some p → h' !! l = Some p ∨ h' !! l = Some (normalize p).

(** The message of a cause that is not followed, or of one whose problem is
    in the heap. *)
Definition cause_text (h : list Problem) (e : error) : string :=
  match e with
  | ErrProblem l' =>
      match h !! l' with
      | Some q => strconv_Itoa (Status q) +:+ ": " +:+ Detail q
      | None => ""
      end
  | ErrText msg => msg
  | ErrWrap msg _ => msg
  end.

(** The entry [Marshal] adds for the cause. *)
Definition with_cause (h : list Problem) (p : Problem)
    (out : gmap string value) : gmap string value :=
  match err p with
  | Some e =>
      if negb (String.eqb (Type_ p) "about:blank")
      then <["error" := VString (cause_text h e)]> out
      else out
  | None => out
  end.

Definition is_empty (s : string) : bool := (String.length s =? 0)%nat.

(** The fields loop unrolled: [type] and [instance] are left out when empty
    under the [json] tags, which alone carry [omitempty]. *)
Definition fields_mapping (renderAs : renderType) (p : Problem) : gmap string value :=
  let tagged := String.eqb "json" renderAs in
  let out := ∅ in
  let out := if tagged && is_empty (Type_ p) then out
             else <["type" := VString (Type_ p)]> out in
  let out := <["title" := VString (Title p)]> out in
  let out := <["status" := VInt (Status p)]> out in
  let out := <["detail" := VString (Detail p)]> out in
  if tagged && is_empty (Instance p) then out
  else <["instance" := VString (Instance p)]> out.

(** Some attribute key is lower-cased to [key]. *)
Definition overridden (p : Problem) (key : string) : Prop :=
  ∃ k, is_Some (attrs p !! k) ∧ strings_ToLower k = key.

(** The problem [FromErrorWithStatus] builds: the detail is the message of
    the error, and the cause is a new error that wraps it, with the message
    prefixed by ["Problem: "]. *)
Definition problem_of (status : Z) (msg : string) (e : error) : Problem :=
  mkProblem "" "" status msg "" None (Some (ErrWrap ("Problem: " +:+ msg) e)).

(** The problem the guard of [Set] returns, after [PrettyPrint] has
    serialized it. *)
Definition guard_problem (h : list Problem) (l : loc) : Problem :=
  mkProblem "about:blank" "Internal Server Error" 500
    "Cannot set extended attributes unless Type is set" "" None
    (Some (ErrWrap ("Problem: " +:+ cause_text h (ErrProblem l)) (ErrProblem l))).

Inductive field : Type := FType | FTitle | FStatus | FDetail | FInstance.

(** The fixed field a key names: a reserved name in lower case, its first
    letter in either case. *)
Definition spelled (key : string) : option field :=
  if String.eqb key "type" || String.eqb key "Type" then Some FType
  else if String.eqb key "title" || String.eqb key "Title" then Some FTitle
  else if String.eqb key "status" || String.eqb key "Status" then Some FStatus
  else if String.eqb key "detail" || String.eqb key "Detail" then Some FDetail
  else if String.eqb key "instance" || String.eqb key "Instance" then Some FInstance
  else None.

Definition field_name (f : field) : string :=
  match f with
  | FType => "Type"
  | FTitle => "Title"
  | FStatus => "Status"
  | FDetail => "Detail"
  | FInstance => "Instance"
  end.



Section Specification.
Context `{Encoding}.

(** The mapping [Marshal] hands to the encoder. *)
Definition Marshal_out (renderAs : renderType) (h : list Problem) (p : Problem)
    : gmap string value :=
  Marshal_attributes
    (with_cause h (normalize p) (Marshal_fields renderAs (normalize p)))
    (range_order (attrs p)).

(** The assignment the loop of [Unmarshal] makes for one entry. *)
Definition assign (key : string) (v : value) (p : Problem) : result Problem :=
  match spelled key with
  | Some FType => Ok (set_Type (fmt_Sprint v) p)
  | Some FTitle => Ok (set_Title (fmt_Sprint v) p)
  | Some FStatus =>
      match strconv_Atoi (fmt_Sprint v) with
      | Ok stat => Ok (set_Status stat p)
      | Err e => Err e
      end
  | Some FDetail => Ok (set_Detail (fmt_Sprint v) p)
  | Some FInstance => Ok (set_Instance (fmt_Sprint v) p)
  | None => Ok (set_Attributes (Some (<[key := v]> (attrs p))) p)
  end.





End Specification.


(** The constructors of the catalog that take no cause. *)
Definition catalog `{Encoding} (depth : nat) (scopes : list string) (detail : string)
    : list (M loc) :=
  [ GetNoAccessResponse depth; GetInvalidTokenResponse depth;
    GetExpiredTokenResponse depth; GetMissingScopeResponse depth scopes;
    GetMissingPermission depth; GetInternalErrorResponse depth detail ].

(** No problem of the heap has a problem as its cause: a cause is a wrapper,
    as [FromErrorWithStatus] builds it, or an error of a library. *)
Definition wrapped (h : list Problem) : Prop :=
  ∀ l p l', h !! l = Some p → err p ≠ Some (ErrProblem l').

(** Every problem of [h'] has the cause its place had in [h], or one that is
    not a problem. *)
Definition keeps_causes (h h' : list Problem) : Prop :=
  ∀ l q', h' !! l = Some q' →
    (∃ q, h !! l = Some q ∧ err q' = err q) ∨ (∀ l', err q' ≠ Some (ErrProblem l')).

(** ** A codec and problems for examples *)

Definition key_le : relation (string * value) := λ a b, String.le a.1 b.1.

#[local] Instance key_le_dec : RelDecision key_le.
Proof. intros a b. unfold key_le. apply _. Defined.

(** The text [fmt.Sprint] gives a mapping, keys in order. *)
Definition render (out : gmap string value) : string :=
  fmt_Sprint (VMap (merge_sort key_le (map_to_list out))).

(** [strconv.Quote] of a text that needs no escape. *)
Definition quote_plain (s : string) : string :=
  String (ascii_of_N 34) (s +:+ String (ascii_of_N 34) "").

(** What a codec that knows the one document [doc] reads. *)
Definition reader_Unmarshal (doc : gmap string value) (data : string)
    : result (gmap string value) :=
  if String.eqb data (render doc) then Ok (json_image <$> doc)
  else Err (ErrText "invalid character looking for beginning of value").

(** A codec that writes a mapping as [render] does and reads back the
    one document [doc], as its JSON image. *)
Definition reader (doc : gmap string value) : Encoding.
Proof.
  refine {| json_Marshal out := Ok (render out);
            json_Unmarshal := reader_Unmarshal doc;
            json_Indent := id;
            strconv_Quote := quote_plain;
            range_order := map_to_list;
            range_order_perm m := reflexivity (map_to_list m);
            json_Marshal_error := _;
            json_Unmarshal_error := _ |}.
  - discriminate.
  - intros data e l. unfold reader_Unmarshal.
    destruct (String.eqb data (render doc)); [discriminate|].
    intros [= <-]. discriminate.
Defined.

(** A codec for runs that read nothing back. *)
Definition plain : Encoding := reader ∅.

Definition extended_example : Problem :=
  mkProblem "uri:example:extended" "Test Error" 500 "An Error has occurred"
    "/error/test" (Some {["TraceID" := VString "12345-67890"]}) None.



(** [New(404, "no such thing")] with the type set and an attribute under
    the given key. *)
Definition typed_example (key : string) : Problem :=
  mkProblem "urn:problem-type:resourceNotFound" "" 404 "no such thing" ""
    (Some {[key := VString "custom"]}) None.

(** [New(500, "disk full")] *)
Definition inner_example : Problem :=
  set_Detail "disk full" (set_Status 500 zero_Problem).

(** A problem whose cause is the problem at location 0. *)
Definition nesting_example : Problem :=
  mkProblem "urn:problem-type:conflict" "" 409 "cannot proceed" "" None
    (Some (ErrProblem 0)).





(** The calls made on a writer, in order. *)
Inductive call : Type :=
| Call_Header_Set (key val : string)
| Call_WriteHeader (statusCode : Z)
| Call_Write (data : string).

(** A writer that records the calls made on it and never fails. *)
Definition recorder : ResponseWriter (list call) :=
  {| Header_Set key val calls := calls ++ [Call_Header_Set key val];
     ResponseWriter_WriteHeader statusCode calls := calls ++ [Call_WriteHeader statusCode];
     ResponseWriter_Write data calls := (calls ++ [Call_Write data], None) |}.


(** * Properties *)

(** ** Text *)

Ltac each_ascii c :=
  destruct c as [[] [] [] [] [] [] [] []].



Lemma Title_from_plain prev s t :
  isSeparator prev = false → no_separator t = true →
  Title_from prev s = t → s = t.
Proof.
  revert prev t. induction s as [|c s IH]; intros prev [|d t] Hp Ht Heq;
    simpl in *; try done.
  rewrite Hp in Heq. injection Heq as -> Heq.
  apply andb_true_iff in Ht as [Hd Ht]. apply negb_true_iff in Hd.
  f_equal. by eapply IH.
Qed.

Lemma Title_from_id prev t :
  isSeparator prev = false → no_separator t = true → Title_from prev t = t.
Proof.
  revert prev. induction t as [|d t IH]; intros prev Hp Ht; simpl in *; [done|].
  apply andb_true_iff in Ht as [Hd Ht]. apply negb_true_iff in Hd.
  rewrite Hp. f_equal. by apply IH.
Qed.

(** A key is title-cased to a capitalised word exactly when it is that word
    with its first letter in either case. *)
Lemma Title_word (C c : ascii) (t k : string) :
  (∀ x, unicode_ToTitle x = C ↔ x = C ∨ x = c) →
  isSeparator C = false → isSeparator c = false → no_separator t = true →
  strings_Title k = String C t ↔ k = String C t ∨ k = String c t.
Proof.
  intros HC HsC Hsc Ht. unfold strings_Title. split.
  - destruct k as [|x s]; simpl; [done|].
    intros Heq. injection Heq as Hx Hs. apply HC in Hx as [->| ->];
      apply Title_from_plain in Hs; subst; auto.
  - intros [->| ->]; simpl; (rewrite Title_from_id by done);
      f_equal; apply HC; auto.
Qed.

Ltac title_letter := intros x; split;
  [ each_ascii x; vm_compute; intros Hx; try discriminate Hx; auto
  | intros [->| ->]; reflexivity ].

Lemma Title_is_Type k : strings_Title k = "Type" ↔ k = "Type" ∨ k = "type".
Proof. apply (Title_word "T" "t" "ype"); try reflexivity. title_letter. Qed.

Lemma Title_is_Title k : strings_Title k = "Title" ↔ k = "Title" ∨ k = "title".
Proof. apply (Title_word "T" "t" "itle"); try reflexivity. title_letter. Qed.

Lemma Title_is_Status k : strings_Title k = "Status" ↔ k = "Status" ∨ k = "status".
Proof. apply (Title_word "S" "s" "tatus"); try reflexivity. title_letter. Qed.

Lemma Title_is_Detail k : strings_Title k = "Detail" ↔ k = "Detail" ∨ k = "detail".
Proof. apply (Title_word "D" "d" "etail"); try reflexivity. title_letter. Qed.

Lemma Title_is_Instance k : strings_Title k = "Instance" ↔ k = "Instance" ∨ k = "instance".
Proof. apply (Title_word "I" "i" "nstance"); try reflexivity. title_letter. Qed.

(** ** Decimal text *)











(** ** The heap and the monad *)

Section Runs.
Context `{Encoding}.

Lemma run_load w l p : heap w !! l = Some p → load l w = Some (p, w).
Proof. intros Hl. unfold load. by rewrite Hl. Qed.

Lemma run_modify w l p f :
  heap w !! l = Some p →
  modify l f w = Some (tt, mkWorld (<[l := f p]> (heap w)) (stdout w)).
Proof. intros Hl. unfold modify. by rewrite Hl. Qed.

Lemma lookup_updated (h : list Problem) l p q :
  h !! l = Some p → <[l := q]> h !! l = Some q.
Proof. intros Hl. apply list_lookup_insert_eq. by eapply lookup_lt_Some. Qed.

Lemma normalize_idem p : normalize (normalize p) = normalize p.
Proof.
  destruct p as [ty ti st de ins at' e]. unfold normalize; simpl.
  destruct ty as [|c ty]; simpl; destruct ti as [|d ti]; simpl; try done;
    by destruct (http_StatusText st).
Qed.

Lemma nests_normalize p : nests (normalize p) = nests p.
Proof.
  destruct p as [ty ti st de ins at' e]. unfold nests, normalize; simpl.
  by destruct ty.
Qed.


Lemma settles_trans h1 h2 h3 : settles h1 h2 → settles h2 h3 → settles h1 h3.
Proof.
  intros [L1 S1] [L2 S2]. split; [congruence|].
  intros l p Hl. destruct (S1 l p Hl) as [H1|H1];
    destruct (S2 _ _ H1) as [H2|H2]; auto.
  rewrite normalize_idem in H2. auto.
Qed.

Lemma settles_normalize h l p :
  h !! l = Some p → settles h (<[l := normalize p]> h).
Proof.
  intros Hl. split; [apply length_insert|].
  intros l' p' Hl'. destruct (decide (l = l')) as [<-|Hne].
  - right. rewrite (lookup_updated _ _ p) by done. congruence.
  - left. by rewrite list_lookup_insert_ne.
Qed.

Lemma ends_within_settles h h' n l :
  settles h h' → ends_within h n l = true → ends_within h' n l = true.
Proof.
  intros [HL HS]. revert l. induction n as [|n IH]; intros l; cbn [ends_within];
    destruct (h !! l) as [p|] eqn:Hl; try done.
  - destruct (HS l p Hl) as [Hl' | Hl']; rewrite Hl', ?nests_normalize;
     destruct (nests p); auto.
  - destruct (HS l p Hl) as [Hl' | Hl']; rewrite Hl', ?nests_normalize;
     destruct (nests p); auto.
Qed.

Lemma ends_within_mono h n m l :
  (n ≤ m)%nat → ends_within h n l = true → ends_within h m l = true.
Proof.
  revert m l. induction n as [|n IH]; intros m l Hnm; cbn [ends_within].
  - destruct m; cbn [ends_within]; destruct (h !! l) as [p|]; try done;
      by destruct (nests p).
  - destruct m as [|m]; [lia|]. cbn [ends_within]. destruct (h !! l) as [p|]; [|done].
    destruct (nests p); [|done]. apply IH. lia.
Qed.

Lemma cause_text_settles h h' e : settles h h' → cause_text h' e = cause_text h e.
Proof.
  intros [HL HS]. destruct e as [l'| |]; simpl; try done.
  destruct (h !! l') as [q|] eqn:Hq.
  - destruct (HS _ _ Hq) as [-> | ->]; [done|].
    by destruct q as [[] [] ? ? ? ? ?].
  - apply lookup_ge_None in Hq. rewrite <- HL in Hq.
    apply lookup_ge_None in Hq. by rewrite Hq.
Qed.

Lemma Marshal_unfold depth l renderAs :
  Marshal (S depth) l renderAs =
  (p <- load l ;;
   (if String.eqb (Type_ p) "" then modify l (set_Type "about:blank")
    else ret tt) ;;
   title <- GetTitle l ;;
   modify l (set_Title title) ;;
   p <- load l ;;
   let out := Marshal_fields renderAs p in
   out <-
     match err p with
     | Some e =>
         if negb (String.eqb (Type_ p) "about:blank") then
           out <-
             match e with
             | ErrProblem problem =>
                 r <- Marshal depth problem jsonType ;;
                 match r with
                 | Ok j => ret (<["error" := VBytes j]> out)
                 | Err _ => ret out
                 end
             | _ => ret out
             end ;;
           msg <- error_Error e ;;
           ret (<["error" := VString msg]> out)
         else ret out
     | None => ret out
     end ;;
   p <- load l ;;
   let out := Marshal_attributes out (range_order (attrs p)) in
   Marshal_encode renderAs out).
Proof. reflexivity. Qed.

Lemma bind_ret {A B} (a : A) (k : A → M B) w : bind (ret a) k w = k a w.
Proof. reflexivity. Qed.

Lemma bind_bind {A B C} (m : M A) (f : A → M B) (g : B → M C) w :
  bind (bind m f) g w = bind m (λ x, bind (f x) g) w.
Proof. unfold bind. by destruct (m w) as [[a w']|]. Qed.

Lemma bind_load {B} w l p (k : Problem → M B) :
  heap w !! l = Some p → bind (load l) k w = k p w.
Proof. intros Hl. unfold bind. by rewrite (run_load _ _ _ Hl). Qed.

Lemma bind_modify {B} w l p f (k : unit → M B) :
  heap w !! l = Some p →
  bind (modify l f) k w = k tt (mkWorld (<[l := f p]> (heap w)) (stdout w)).
Proof. intros Hl. unfold bind. by rewrite (run_modify _ _ _ _ Hl). Qed.

Lemma bind_alloc {B} w p (k : loc → M B) :
  bind (alloc p) k w = k (length (heap w)) (mkWorld (heap w ++ [p]) (stdout w)).
Proof. reflexivity. Qed.

Lemma bind_if_ret {A B} (c : bool) (x y : A) (k : A → M B) w :
  bind (if c then ret x else ret y) k w = k (if c then x else y) w.
Proof. by destruct c. Qed.

(** The opening statements of [Marshal] normalize the problem in place. *)
Lemma Marshal_prologue w l p (k : Problem → M (result string)) :
  heap w !! l = Some p →
  (p <- load l ;;
   (if String.eqb (Type_ p) "" then modify l (set_Type "about:blank")
    else ret tt) ;;
   title <- GetTitle l ;;
   modify l (set_Title title) ;;
   p <- load l ;;
   k p) w
  = k (normalize p) (mkWorld (<[l := normalize p]> (heap w)) (stdout w)).
Proof.
  intros Hl. rewrite (bind_load _ _ _ _ Hl). unfold normalize, GetTitle.
  destruct (String.eqb (Type_ p) "") eqn:Hty.
  - rewrite (bind_modify _ _ _ _ _ Hl), bind_bind.
    pose proof (lookup_updated _ _ _ (set_Type "about:blank" p) Hl) as Hl1.
    rewrite (bind_load (mkWorld _ _) _ _ _ Hl1), bind_if_ret.
    rewrite (bind_modify (mkWorld _ _) _ _ _ _ Hl1). cbn [heap stdout].
    rewrite list_insert_insert_eq.
    by rewrite (bind_load (mkWorld _ _) _ _ _ (lookup_updated _ _ _ _ Hl)).
  - rewrite bind_ret, bind_bind, (bind_load _ _ _ _ Hl), bind_if_ret.
    rewrite (bind_modify _ _ _ _ _ Hl).
    by rewrite (bind_load (mkWorld _ _) _ _ _ (lookup_updated _ _ _ _ Hl)).
Qed.

Lemma err_normalize p : err (normalize p) = err p.
Proof. unfold normalize. by destruct (String.eqb (Type_ p) ""). Qed.

Lemma attrs_normalize p : attrs (normalize p) = attrs p.
Proof. unfold normalize, attrs. by destruct (String.eqb (Type_ p) ""). Qed.

Lemma Type_normalize p :
  Type_ (normalize p) = if String.eqb (Type_ p) "" then "about:blank" else Type_ p.
Proof. unfold normalize. by destruct (String.eqb (Type_ p) ""). Qed.

Lemma Type_normalize_blank p :
  String.eqb (Type_ (normalize p)) "about:blank"
  = String.eqb (Type_ p) "" || String.eqb (Type_ p) "about:blank".
Proof. rewrite Type_normalize. by destruct (String.eqb (Type_ p) ""). Qed.

(** [Marshal] on a problem whose cause it does not follow. *)
Lemma Marshal_run_leaf depth renderAs l w p :
  heap w !! l = Some p → nests p = None →
  Marshal (S depth) l renderAs w =
  Marshal_encode renderAs (Marshal_out renderAs (heap w) p)
    (mkWorld (<[l := normalize p]> (heap w)) (stdout w)).
Proof.
  intros Hl Hn. rewrite Marshal_unfold, (Marshal_prologue _ _ _ _ Hl).
  pose proof (lookup_updated _ _ _ (normalize p) Hl) as Hl1.
  unfold Marshal_out, with_cause, nests in *.
  rewrite Type_normalize_blank, err_normalize.
  destruct (err p) as [e|]; cbn zeta.
  - destruct (String.eqb (Type_ p) "" || String.eqb (Type_ p) "about:blank");
      cbn [negb].
    + rewrite bind_ret, (bind_load (mkWorld _ _) _ _ _ Hl1).
      by rewrite attrs_normalize.
    + destruct e as [l'|msg|msg inner]; [done|..];
        cbn [error_Error cause_text]; unfold bind, ret;
        rewrite (run_load (mkWorld _ _) _ _ Hl1);
        by rewrite attrs_normalize.
  - rewrite bind_ret, (bind_load (mkWorld _ _) _ _ _ Hl1).
    by rewrite attrs_normalize.
Qed.

Lemma Marshal_encode_json out w :
  Marshal_encode jsonType out w = Some (json_Marshal out, w).
Proof. reflexivity. Qed.

(** [Marshal] on a problem whose cause is a problem that is serialized
    first: whatever that nested call returns, the entry for the cause is the
    message of the cause. *)
Lemma Marshal_run_nest depth renderAs l w p l' r h2 :
  heap w !! l = Some p → nests p = Some l' → is_Some (heap w !! l') →
  Marshal depth l' jsonType (mkWorld (<[l := normalize p]> (heap w)) (stdout w))
    = Some (r, mkWorld h2 (stdout w)) →
  settles (<[l := normalize p]> (heap w)) h2 →
  Marshal (S depth) l renderAs w =
  Marshal_encode renderAs (Marshal_out renderAs (heap w) p)
    (mkWorld h2 (stdout w)).
Proof.
  intros Hl Hn [q Hq] Hnested Hset.
  assert (settles (heap w) h2) as Hset'.
  { eapply settles_trans; [apply (settles_normalize _ _ _ Hl)|done]. }
  rewrite Marshal_unfold, (Marshal_prologue _ _ _ _ Hl).
  pose proof (lookup_updated _ _ _ (normalize p) Hl) as Hl1.
  assert (h2 !! l = Some (normalize p)) as Hl2.
  { destruct Hset as [_ HS]. destruct (HS _ _ Hl1) as [?|Hx]; [done|].
    by rewrite normalize_idem in Hx. }
  unfold Marshal_out, with_cause, nests in *.
  rewrite Type_normalize_blank, err_normalize.
  destruct (err p) as [[l0| |]|]; try done.
  destruct (String.eqb (Type_ p) "" || String.eqb (Type_ p) "about:blank");
    [done|]. injection Hn as ->. cbn [negb].
  rewrite !bind_bind. unfold bind at 1. rewrite Hnested.
  assert (∃ q2, h2 !! l' = Some q2) as [q2 Hq2].
  { destruct Hset' as [_ HS]. destruct (HS _ _ Hq); eauto. }
  assert (∀ out (k : gmap string value → M (result string)),
    bind (msg <- error_Error (ErrProblem l') ;; ret (<["error" := VString msg]> out)) k
      (mkWorld h2 (stdout w))
    = k (<["error" := VString (cause_text (heap w) (ErrProblem l'))]> out)
        (mkWorld h2 (stdout w))) as Hmsg.
  { intros out k. rewrite bind_bind. cbn [error_Error]. unfold Problem_Error.
    rewrite bind_bind, (bind_load (mkWorld _ _) _ _ _ Hq2), !bind_ret.
    rewrite <- (cause_text_settles _ _ (ErrProblem l') Hset').
    cbn [cause_text]. by rewrite Hq2. }
  destruct r as [j|e0]; rewrite bind_ret, Hmsg, ?insert_insert_eq,
    (bind_load (mkWorld _ _) _ _ _ Hl2); by rewrite attrs_normalize.
Qed.

(** [Marshal] returns when the chain of causes it follows ends within the
    given depth: it normalizes problems along the chain, and hands
    [Marshal_out] to the encoder. *)
Lemma Marshal_run n renderAs l w p :
  heap w !! l = Some p → ends_within (heap w) n l = true →
  ∃ h', settles (heap w) h' ∧ h' !! l = Some (normalize p) ∧
    Marshal (S n) l renderAs w =
    Marshal_encode renderAs (Marshal_out renderAs (heap w) p)
      (mkWorld h' (stdout w)).
Proof.
  revert renderAs l w p. induction n as [|n IH]; intros renderAs l w p Hl He;
    cbn [ends_within] in He; rewrite Hl in He;
    destruct (nests p) as [l'|] eqn:Hn; try done;
    try (exists (<[l := normalize p]> (heap w)); split_and!;
         [by apply settles_normalize|by eapply lookup_updated
         |by apply Marshal_run_leaf]).
  pose proof (lookup_updated _ _ _ (normalize p) Hl) as Hl1.
  pose proof (settles_normalize _ _ _ Hl) as Hs1.
  assert (is_Some (heap w !! l')) as [q Hq].
  { destruct n; cbn [ends_within] in He; by destruct (heap w !! l'). }
  destruct Hs1 as [HL1 HS1]. destruct (HS1 _ _ Hq) as [Hq1|Hq1].
  all: destruct (IH jsonType l'
         (mkWorld (<[l := normalize p]> (heap w)) (stdout w)) _ Hq1)
         as (h2 & Hs2 & Hl2 & Hrun);
       [by apply (ends_within_settles (heap w)); [split|]|].
  all: rewrite Marshal_encode_json in Hrun; cbn [heap stdout] in *.
  all: exists h2; split_and!;
       [ eapply settles_trans; [by split|done]
       | destruct Hs2 as [_ HS2]; destruct (HS2 _ _ Hl1) as [?|Hx]; [done|];
         by rewrite normalize_idem in Hx
       | by eapply Marshal_run_nest ].
Qed.

Lemma ends_within_settles_back h h' n l :
  settles h h' → ends_within h' n l = true → ends_within h n l = true.
Proof.
  intros [HL HS]. revert l. induction n as [|n IH]; intros l; cbn [ends_within];
    destruct (h !! l) as [p|] eqn:Hl.
  - destruct (HS l p Hl) as [Hl' | Hl']; rewrite Hl', ?nests_normalize;
      destruct (nests p); auto.
  - apply lookup_ge_None in Hl. rewrite <- HL in Hl.
    apply lookup_ge_None in Hl. by rewrite Hl.
  - destruct (HS l p Hl) as [Hl' | Hl']; rewrite Hl', ?nests_normalize;
      destruct (nests p); auto.
  - apply lookup_ge_None in Hl. rewrite <- HL in Hl.
    apply lookup_ge_None in Hl. by rewrite Hl.
Qed.

(** Conversely, [Marshal] does not return when the chain of causes it
    follows does not end within the depth (in Go, when the chain is a cycle:
    the recursion has no end). *)
Lemma Marshal_stuck n renderAs l w :
  ends_within (heap w) n l = false → Marshal (S n) l renderAs w = None.
Proof.
  revert renderAs l w. induction n as [|n IH]; intros renderAs l w He;
    cbn [ends_within] in He; rewrite Marshal_unfold;
    destruct (heap w !! l) as [p|] eqn:Hl;
    try (unfold bind, load; by rewrite Hl);
    rewrite (Marshal_prologue _ _ _ _ Hl);
    unfold nests in He; rewrite err_normalize, Type_normalize_blank;
    destruct (err p) as [[l'| |]|]; try done;
    destruct (String.eqb (Type_ p) "" || String.eqb (Type_ p) "about:blank");
    try done; cbn [negb].
  assert (Marshal (S n) l' jsonType
            (mkWorld (<[l := normalize p]> (heap w)) (stdout w)) = None) as Hn.
  { apply IH. cbn [heap].
    destruct (ends_within (<[l:=normalize p]> (heap w)) n l') eqn:Hx; [|done].
    apply (ends_within_settles_back (heap w)) in Hx; [congruence|].
    by apply settles_normalize. }
  unfold bind. by rewrite Hn.
Qed.

End Runs.

(** ** The mapping built by [Marshal] *)

Section Mapping.
Context `{Encoding}.


Lemma Marshal_fields_unrolled renderAs p :
  Marshal_fields renderAs p = fields_mapping renderAs p.
Proof.
  unfold Marshal_fields, fields_mapping, Problem_fields, is_empty.
  cbn [foldl Name Tag Tag_Lookup].
  destruct (String.eqb "json" renderAs); cbn;
    repeat match goal with
      | |- context [unicode_ToLower ?c] =>
          let c' := eval vm_compute in (unicode_ToLower c) in
          change (unicode_ToLower c) with c'
      end;
    by repeat destruct (_ =? _)%nat.
Qed.

Lemma Marshal_attributes_cons out k v entries :
  Marshal_attributes out ((k, v) :: entries)
  = Marshal_attributes (<[strings_ToLower k := v]> out) entries.
Proof. reflexivity. Qed.

(** A key that no attribute lower-cases to keeps its entry. *)
Lemma Marshal_attributes_miss out entries key :
  (∀ k v, (k, v) ∈ entries → strings_ToLower k ≠ key) →
  Marshal_attributes out entries !! key = out !! key.
Proof.
  revert out. induction entries as [|[k v] entries IH]; intros out Hmiss; [done|].
  rewrite Marshal_attributes_cons, IH.
  - apply lookup_insert_ne. apply (Hmiss k v). by left.
  - intros k' v' Hin. apply (Hmiss k' v'). by right.
Qed.


Lemma elem_of_range_order (m : gmap string value) k v :
  (k, v) ∈ range_order m ↔ m !! k = Some v.
Proof. rewrite range_order_perm. apply elem_of_map_to_list. Qed.


End Mapping.

(** ** Claims about [Marshal] *)

Section MarshalClaims.
Context `{Encoding}.

Lemma Marshal_encode_returns renderAs out w :
  ∃ r w', Marshal_encode renderAs out w = Some (r, w') ∧
    ∀ l p, heap w !! l = Some p → heap w' !! l = Some p.
Proof.
  unfold Marshal_encode.
  destruct (String.eqb renderAs jsonType); [by eexists _, _|].
  destruct (String.eqb renderAs xmlType); [by eexists _, _|].
  eexists _, _. split; [reflexivity|]. cbn [heap].
  intros l p Hl. by apply lookup_app_l_Some.
Qed.

Lemma Title_normalize p :
  Title p = "" → Title (normalize p) = http_StatusText (Status p).
Proof. unfold normalize. intros Ht. destruct (String.eqb (Type_ p) ""); simpl; by rewrite Ht. Qed.


(** C7. For every problem whose [Type] is empty, [Marshal] (whatever the
    render type) returns and has set the field to ["about:blank"] on the
    problem itself: reading the problem after the call shows the new type. *)
Theorem Marshal_sets_default_type depth renderAs l w p :
  heap w !! l = Some p → Type_ p = "" →
  ∃ r w' p', Marshal (S depth) l renderAs w = Some (r, w') ∧
    load l w' = Some (p', w') ∧ Type_ p' = "about:blank".
Proof.
  intros Hl Hty.
  assert (nests p = None) as Hn.
  { unfold nests. rewrite Hty. by destruct (err p) as [[]|]. }
  rewrite (Marshal_run_leaf _ _ _ _ _ Hl Hn).
  destruct (Marshal_encode_returns renderAs (Marshal_out renderAs (heap w) p)
              (mkWorld (<[l := normalize p]> (heap w)) (stdout w)))
    as (r & w' & -> & Hkeep).
  exists r, w', (normalize p). split_and!; [done| |].
  - apply run_load, Hkeep. by eapply lookup_updated.
  - by rewrite Type_normalize, Hty.
Qed.

(** C10. [Marshal] writes the resolved title back: for every problem with an
    empty [Title], once [Marshal] has returned (whatever the render type, and
    it does return when the chain of causes it follows ends), the [Title]
    field holds the reason phrase of the status, which is the empty string
    for a status without one, such as 555. *)
Theorem Marshal_stores_title depth renderAs l w p :
  heap w !! l = Some p → Title p = "" →
  ends_within (heap w) depth l = true →
  ∃ r w' p', Marshal (S depth) l renderAs w = Some (r, w') ∧
    load l w' = Some (p', w') ∧
    Title p' = http_StatusText (Status p) ∧
    (Status p = 555 → Title p' = "").
Proof.
  intros Hl Hti He.
  destruct (Marshal_run _ renderAs _ _ _ Hl He) as (h' & Hs & Hl' & ->).
  destruct (Marshal_encode_returns renderAs (Marshal_out renderAs (heap w) p)
              (mkWorld h' (stdout w))) as (r & w' & -> & Hkeep).
  exists r, w', (normalize p). split_and!; [done| | |].
  - by apply run_load, Hkeep.
  - by apply Title_normalize.
  - intros H555. by rewrite Title_normalize, H555.
Qed.


Lemma Marshal_out_not_overridden renderAs h p key :
  ¬ overridden p key →
  Marshal_out renderAs h p !! key
  = with_cause h (normalize p) (fields_mapping renderAs (normalize p)) !! key.
Proof.
  intros Hno. unfold Marshal_out. rewrite Marshal_fields_unrolled.
  apply Marshal_attributes_miss. intros k v Hin Hk.
  apply elem_of_range_order in Hin. apply Hno. exists k. eauto.
Qed.









Lemma fields_mapping_keys renderAs p key :
  is_Some (fields_mapping renderAs p !! key) →
  key ∈ ["type"; "title"; "status"; "detail"; "instance"].
Proof.
  unfold fields_mapping. intros [v Hv].
  repeat destruct (_ && _);
    repeat (apply lookup_insert_Some in Hv as [[<- _]|[_ Hv]]; [set_solver|]);
    by rewrite lookup_empty in Hv.
Qed.

Lemma Marshal_json_run depth l w p :
  heap w !! l = Some p → ends_within (heap w) depth l = true →
  ∃ h', settles (heap w) h' ∧ h' !! l = Some (normalize p) ∧
    Marshal (S depth) l jsonType w =
    Some (json_Marshal (Marshal_out jsonType (heap w) p), mkWorld h' (stdout w)).
Proof.
  intros Hl He. destruct (Marshal_run _ jsonType _ _ _ Hl He) as (h' & ? & ? & ->).
  by exists h'.
Qed.

Lemma error_Error_text e w :
  (∀ l', e = ErrProblem l' → is_Some (heap w !! l')) →
  error_Error e w = Some (cause_text (heap w) e, w).
Proof.
  destruct e as [l'| |]; intros Hv; [|done..].
  destruct (Hv l' eq_refl) as [q Hq]. cbn [error_Error cause_text].
  unfold Problem_Error. by rewrite (bind_load _ _ _ _ Hq), Hq.
Qed.

Lemma fields_mapping_no_error renderAs p :
  fields_mapping renderAs p !! "error" = None.
Proof.
  destruct (fields_mapping renderAs p !! "error") eqn:Hx; [|done].
  assert ("error" ∈ ["type"; "title"; "status"; "detail"; "instance"]) as Hin
    by (by eapply fields_mapping_keys).
  repeat (apply elem_of_cons in Hin as [?|Hin]; [done|]).
  by apply elem_of_nil in Hin.
Qed.


(** C6. For every problem none of whose attribute keys is
    lower-cased to ["error"]: when the cause is not nil and the type is
    neither empty nor ["about:blank"], the mapping [Marshal] encodes has an
    ["error"] entry holding the message of the cause, also when the cause is
    a problem whose own serialization has just succeeded; when the cause is
    nil or the type is empty or ["about:blank"], it has no ["error"] entry. *)
Theorem Marshal_error_is_cause_message depth l w p :
  heap w !! l = Some p →
  ¬ overridden p "error" →
  ends_within (heap w) depth l = true →
  ∃ out w', Marshal (S depth) l jsonType w = Some (json_Marshal out, w') ∧
    (∀ e, err p = Some e → Type_ p ≠ "" → Type_ p ≠ "about:blank" →
       ∃ msg, error_Error e w = Some (msg, w) ∧
         out !! "error" = Some (VString msg)) ∧
    (err p = None ∨ Type_ p = "" ∨ Type_ p = "about:blank" →
       out !! "error" = None).
Proof.
  intros Hl Hno He.
  destruct (Marshal_json_run _ _ _ _ Hl He) as (h' & _ & _ & ->).
  eexists _, _. split; [done|].
  rewrite (Marshal_out_not_overridden _ _ _ _ Hno).
  unfold with_cause. rewrite err_normalize, Type_normalize_blank. split.
  - intros e Hee Hty1 Hty2. rewrite Hee.
    apply String.eqb_neq in Hty1, Hty2. rewrite Hty1, Hty2. cbn [orb negb].
    exists (cause_text (heap w) e). split; [|by rewrite lookup_insert_eq].
    apply error_Error_text. intros l' ->.
    destruct depth; cbn [ends_within] in He; rewrite Hl in He;
      unfold nests in He; rewrite Hee, Hty1, Hty2 in He; cbn [orb] in He;
      [done|].
    destruct depth; cbn [ends_within] in He; by destruct (heap w !! l').
  - intros Hor. destruct (err p) as [e|] eqn:Hee;
      [|apply fields_mapping_no_error].
    destruct Hor as [?|[-> | ->]]; [done|..]; cbn [negb orb];
      apply fields_mapping_no_error.
Qed.



End MarshalClaims.

(** ** Constructors and [Wrap] *)

Section Constructors.

Lemma lookup_fresh (h : list Problem) q : (h ++ [q]) !! length h = Some q.
Proof. by rewrite (list_lookup_middle h [] q). Qed.

Lemma insert_fresh (h : list Problem) q q' :
  <[length h := q']> (h ++ [q]) = h ++ [q'].
Proof. rewrite insert_app_r_alt by lia. by rewrite Nat.sub_diag. Qed.

Lemma cause_text_grown h q e :
  (∀ l', e = ErrProblem l' → is_Some (h !! l')) →
  cause_text (h ++ [q]) e = cause_text h e.
Proof.
  destruct e as [l'| |]; intros Hv; [|done..].
  destruct (Hv l' eq_refl) as [x Hx]. cbn [cause_text].
  by rewrite (lookup_app_l_Some _ _ _ _ Hx), Hx.
Qed.

Lemma FromErrorWithStatus_run status e w :
  (∀ l', e = ErrProblem l' → is_Some (heap w !! l')) →
  FromErrorWithStatus status e w =
  Some (length (heap w),
        mkWorld (heap w ++ [problem_of status (cause_text (heap w) e) e]) (stdout w)).
Proof.
  intros Hv. unfold FromErrorWithStatus, New.
  unfold bind at 1. rewrite (error_Error_text e w Hv).
  rewrite bind_alloc. unfold bind at 1.
  rewrite error_Error_text; cbn [heap stdout].
  - rewrite cause_text_grown by done.
    rewrite (bind_modify (mkWorld _ _) _ _ _ _ (lookup_fresh _ _)).
    cbn [heap stdout]. by rewrite insert_fresh.
  - intros l' ->. destruct (Hv l' eq_refl) as [x Hx].
    exists x. by apply lookup_app_l_Some.
Qed.

Lemma FromError_run e w :
  (∀ l', e = ErrProblem l' → is_Some (heap w !! l')) →
  FromError e w =
  Some (length (heap w),
        mkWorld (heap w ++ [problem_of 500 (cause_text (heap w) e) e]) (stdout w)).
Proof. apply FromErrorWithStatus_run. Qed.

(** C9. [Wrap] returns a problem as it is, the very same
    pointer and nothing changed, so wrapping the result of a [Wrap] again
    yields the identical instance; on any other error it is [FromError]:
    a new problem with status 500, the message of the error as detail, and as
    cause a new error that wraps the given one under the message
    ["Problem: "] followed by its message. *)
Theorem Wrap_problem_or_FromError :
  (∀ l w, Wrap (ErrProblem l) w = Some (l, w)) ∧
  (∀ e w, (∀ l, e ≠ ErrProblem l) →
     ∃ msg prob w',
       error_Error e w = Some (msg, w) ∧
       Wrap e w = FromError e w ∧
       Wrap e w = Some (prob, w') ∧
       heap w !! prob = None ∧
       heap w' !! prob = Some (problem_of 500 msg e) ∧
       (∀ l p, heap w !! l = Some p → heap w' !! l = Some p) ∧
       (first <- Wrap e ;; second <- Wrap (ErrProblem first) ;;
        ret (first, second)) w = Some ((prob, prob), w')).
Proof.
  split; [done|]. intros e w Hplain.
  assert (∀ l', e = ErrProblem l' → is_Some (heap w !! l')) as Hv.
  { intros l' ->. by destruct (Hplain l'). }
  assert (Wrap e w = FromError e w) as HW.
  { destruct e as [l0| |]; [by destruct (Hplain l0)|..];
      cbn [Wrap]; unfold bind; by destruct (FromError _ w) as [[? ?]|]. }
  exists (cause_text (heap w) e), (length (heap w)),
    (mkWorld (heap w ++ [problem_of 500 (cause_text (heap w) e) e]) (stdout w)).
  rewrite HW. split_and!.
  - by apply error_Error_text.
  - done.
  - by apply FromError_run.
  - by apply lookup_ge_None.
  - apply lookup_fresh.
  - intros l p Hl. by apply lookup_app_l_Some.
  - unfold bind at 1. by rewrite HW, FromError_run.
Qed.

End Constructors.

(** ** [Set] *)

Lemma spelled_Some key f : spelled key = Some f ↔ strings_Title key = field_name f.
Proof.
  unfold spelled.
  destruct (String.eqb_spec key "type") as [->|N1]; [by destruct f|].
  destruct (String.eqb_spec key "Type") as [->|N2]; [by destruct f|].
  destruct (String.eqb_spec key "title") as [->|N3]; [by destruct f|].
  destruct (String.eqb_spec key "Title") as [->|N4]; [by destruct f|].
  destruct (String.eqb_spec key "status") as [->|N5]; [by destruct f|].
  destruct (String.eqb_spec key "Status") as [->|N6]; [by destruct f|].
  destruct (String.eqb_spec key "detail") as [->|N7]; [by destruct f|].
  destruct (String.eqb_spec key "Detail") as [->|N8]; [by destruct f|].
  destruct (String.eqb_spec key "instance") as [->|N9]; [by destruct f|].
  destruct (String.eqb_spec key "Instance") as [->|N10]; [by destruct f|].
  cbn [orb]. split; [done|]. intros Ht. exfalso.
  destruct f; cbn [field_name] in Ht.
  - apply Title_is_Type in Ht as [?|?]; done.
  - apply Title_is_Title in Ht as [?|?]; done.
  - apply Title_is_Status in Ht as [?|?]; done.
  - apply Title_is_Detail in Ht as [?|?]; done.
  - apply Title_is_Instance in Ht as [?|?]; done.
Qed.

Lemma spelled_None key :
  spelled key = None →
  String.eqb (strings_Title key) "Title" = false ∧
  String.eqb (strings_Title key) "Status" = false ∧
  String.eqb (strings_Title key) "Type" = false ∧
  String.eqb (strings_Title key) "Detail" = false ∧
  String.eqb (strings_Title key) "Instance" = false.
Proof.
  intros Hs. split_and!; apply String.eqb_neq; intros Ht.
  - by apply (spelled_Some key FTitle) in Ht; congruence.
  - by apply (spelled_Some key FStatus) in Ht; congruence.
  - by apply (spelled_Some key FType) in Ht; congruence.
  - by apply (spelled_Some key FDetail) in Ht; congruence.
  - by apply (spelled_Some key FInstance) in Ht; congruence.
Qed.



Section SetClaims.
Context `{Encoding}.

Lemma Set_fixed_run depth l key v w p f :
  heap w !! l = Some p → spelled key = Some f →
  Set_ depth l key v w =
  match f with
  | FType => Some (None, mkWorld (<[l := set_Type (fmt_Sprint v) p]> (heap w)) (stdout w))
  | FTitle => Some (None, mkWorld (<[l := set_Title (fmt_Sprint v) p]> (heap w)) (stdout w))
  | FStatus =>
      Some (Some (ErrProblem (length (heap w))),
            mkWorld (heap w ++ [mkProblem "" "" 500 "Cannot set status with Set" "" None None])
                    (stdout w))
  | FDetail => Some (None, mkWorld (<[l := set_Detail (fmt_Sprint v) p]> (heap w)) (stdout w))
  | FInstance => Some (None, mkWorld (<[l := set_Instance (fmt_Sprint v) p]> (heap w)) (stdout w))
  end.
Proof.
  intros Hl Hs. apply spelled_Some in Hs. unfold Set_. rewrite Hs.
  destruct f; cbn [field_name String.eqb Ascii.eqb Bool.eqb];
    rewrite ?(bind_modify _ _ _ _ _ Hl); reflexivity.
Qed.

Lemma Set_extension_run depth l key v w p :
  heap w !! l = Some p → spelled key = None →
  Type_ p ≠ "" → Type_ p ≠ "about:blank" →
  Set_ depth l key v w =
  Some (None,
        mkWorld (<[l := set_Attributes (Some (<[key := v]> (attrs p))) p]> (heap w))
                (stdout w)).
Proof.
  intros Hl Hs Hty1 Hty2. unfold Set_.
  apply spelled_None in Hs as (-> & -> & -> & -> & ->).
  rewrite (bind_load _ _ _ _ Hl).
  apply String.eqb_neq in Hty1, Hty2. rewrite Hty1, Hty2. cbn [orb].
  destruct (Attributes p) as [m|] eqn:Hm; cbv beta iota.
  - by rewrite bind_ret, (bind_modify _ _ _ _ _ Hl).
  - rewrite (bind_modify _ _ _ _ _ Hl).
    rewrite (bind_modify (mkWorld _ _) _ _ _ _ (lookup_updated _ _ _ _ Hl)).
    cbn [heap stdout]. rewrite list_insert_insert_eq.
    unfold ret, attrs. rewrite Hm. by destruct p.
Qed.

Lemma Set_guarded_run depth l key v w p :
  heap w !! l = Some p → spelled key = None →
  Type_ p = "" ∨ Type_ p = "about:blank" →
  ∃ line,
    Set_ (S depth) l key v w =
    Some (Some (ErrProblem (length (heap w))),
          mkWorld (heap w ++ [guard_problem (heap w) l]) (stdout w ++ [line])).
Proof.
  intros Hl Hs Hty. unfold Set_.
  apply spelled_None in Hs as (-> & -> & -> & -> & ->).
  rewrite (bind_load _ _ _ _ Hl).
  assert (String.eqb (Type_ p) "" || String.eqb (Type_ p) "about:blank" = true) as ->.
  { by destruct Hty as [-> | ->]. }
  unfold bind at 1. rewrite FromError_run; [|intros ? [= <-]; by eexists].
  rewrite (bind_modify (mkWorld _ _) _ _ _ _ (lookup_fresh _ _)).
  cbn [heap stdout]. rewrite insert_fresh.
  unfold PrettyPrint, MarshalJSON. rewrite bind_bind. unfold bind at 1.
  rewrite (Marshal_run_leaf _ _ _ (mkWorld _ _) _ (lookup_fresh _ _)) by done.
  rewrite Marshal_encode_json. cbn [heap stdout]. rewrite insert_fresh.
  set (out := Marshal_out _ _ _).
  destruct (json_Marshal out) as [pp|e0] eqn:Hj.
  - exists (json_Indent pp). reflexivity.
  - eexists. unfold bind. rewrite error_Error_text; [reflexivity|].
    intros l' ->. by destruct (json_Marshal_error _ _ l' Hj).
Qed.



Lemma strconv_Atoi_error s e : strconv_Atoi s = Err e → ∃ msg, e = ErrText msg.
Proof.
  unfold strconv_Atoi. destruct (parse_int s) as [z|]; [|intros [= <-]; by eexists].
  destruct (_ && _); [done|]. intros [= <-]. by eexists.
Qed.

Lemma Unmarshal_entry_run l key v w p :
  heap w !! l = Some p →
  Unmarshal_entry l key v w =
  match assign key v p with
  | Ok p' => Some (None, mkWorld (<[l := p']> (heap w)) (stdout w))
  | Err e =>
      Some (Some (ErrProblem (length (heap w))),
            mkWorld (heap w ++ [problem_of 500 (cause_text (heap w) e) e]) (stdout w))
  end.
Proof.
  intros Hl. unfold Unmarshal_entry, assign.
  destruct (spelled key) as [f|] eqn:Hs.
  - apply spelled_Some in Hs. rewrite Hs.
    destruct f; cbn [field_name String.eqb Ascii.eqb Bool.eqb];
      rewrite ?(bind_modify _ _ _ _ _ Hl); try reflexivity.
    destruct (strconv_Atoi (fmt_Sprint v)) as [stat|e] eqn:Ha.
    + by rewrite (bind_modify _ _ _ _ _ Hl).
    + apply strconv_Atoi_error in Ha as [msg ->].
      unfold bind. by rewrite FromError_run.
  - apply spelled_None in Hs as (-> & -> & -> & -> & ->).
    by rewrite (bind_modify _ _ _ _ _ Hl).
Qed.

Lemma range_order_singleton key v : range_order {[key := v]} = [(key, v)].
Proof.
  apply Permutation_singleton_r. rewrite range_order_perm.
  by rewrite map_to_list_singleton.
Qed.


End SetClaims.

(** ** [Unmarshal] and the round trip *)

Section RoundTrip.
Context `{Encoding}.














End RoundTrip.




(** *** C7 and C10 *)

Lemma Marshal_sets_default_type_witness :
  ∃ r w' p',
    Marshal (H := plain) 1 0 xmlType (mkWorld [zero_Problem] []) = Some (r, w') ∧
    load 0 w' = Some (p', w') ∧ Type_ p' = "about:blank".
Proof.
  apply (Marshal_sets_default_type (H := plain) 0 xmlType 0
           (mkWorld [zero_Problem] []) zero_Problem); reflexivity.
Defined.

Lemma Marshal_stores_title_witness :
  ∃ r w' p',
    Marshal (H := plain) 1 0 jsonType
      (mkWorld [set_Status 555 zero_Problem] []) = Some (r, w') ∧
    load 0 w' = Some (p', w') ∧
    Title p' = http_StatusText 555 ∧
    ((555 : Z) = 555 → Title p' = "").
Proof.
  apply (Marshal_stores_title (H := plain) 0 jsonType 0
           (mkWorld [set_Status 555 zero_Problem] []) (set_Status 555 zero_Problem));
    reflexivity.
Defined.

(** *** C8 *)



(** *** C6 *)

(** An attribute under the key ["error"] replaces the message of the
    cause; and a problem with a cause whose type is empty, which is not
    ["about:blank"], gets no ["error"] entry at all. *)
Lemma error_entry_is_not_always_the_cause_message :
  (∃ w', Marshal (H := plain) 1 0 jsonType
     (mkWorld [set_err (Some (ErrText "boom")) (typed_example "error")] [])
     = Some (Ok "map[detail:no such thing error:custom status:404 title:Not Found type:urn:problem-type:resourceNotFound]", w')) ∧
  (∃ prob w1 p w',
     FromError (ErrText "boom") (mkWorld [] []) = Some (prob, w1) ∧
     heap w1 !! prob = Some p ∧ Type_ p ≠ "about:blank" ∧ err p ≠ None ∧
     Marshal (H := plain) 1 prob jsonType w1
     = Some (Ok "map[detail:boom status:500 title:Internal Server Error type:about:blank]", w')).
Proof.
  split.
  - eexists. vm_compute. reflexivity.
  - eexists _, _, _, _. split_and!; [reflexivity..|done|done|].
    vm_compute. reflexivity.
Qed.

Lemma Marshal_error_is_cause_message_witness :
  let w := mkWorld [inner_example; nesting_example] [] in
  heap w !! 1%nat = Some nesting_example ∧
  ends_within (heap w) 1 1 = true ∧
  ∃ out w',
    Marshal (H := plain) 2 1 jsonType w = Some (@json_Marshal plain out, w') ∧
    (∀ e, err nesting_example = Some e →
       Type_ nesting_example ≠ "" → Type_ nesting_example ≠ "about:blank" →
       ∃ msg, error_Error e w = Some (msg, w) ∧
         out !! "error" = Some (VString msg)) ∧
    (err nesting_example = None ∨ Type_ nesting_example = "" ∨
     Type_ nesting_example = "about:blank" → out !! "error" = None).
Proof.
  intros w. split; [reflexivity|]. split; [reflexivity|].
  apply (Marshal_error_is_cause_message (H := plain) 1 1 w nesting_example);
    try reflexivity.
  intros (k & [v Hk] & _). discriminate Hk.
Defined.

(** The nested problem is serialized, and the message still wins. *)
Example nested_cause_message :
  ∃ w', Marshal (H := plain) 2 1 jsonType
          (mkWorld [inner_example; nesting_example] [])
  = Some (Ok "map[detail:cannot proceed error:500: disk full status:409 title:Conflict type:urn:problem-type:conflict]", w')
  ∧ heap w' !! 0%nat
    = Some (mkProblem "about:blank" "Internal Server Error" 500 "disk full" "" None None).
Proof. eexists. vm_compute. split; reflexivity. Qed.

(** *** C5 *)



(** *** C2, C3 and C4 *)






(** *** C9 *)

(** The cause that [Wrap] stores for a plain error is not that error: its
    message carries the prefix. *)
Lemma Wrap_stores_a_wrapper :
  ∃ prob w' p,
    Wrap (ErrText "boom") (mkWorld [] []) = Some (prob, w') ∧
    heap w' !! prob = Some p ∧
    err p = Some (ErrWrap "Problem: boom" (ErrText "boom")) ∧
    err p ≠ Some (ErrText "boom") ∧
    (cause <- Unwrap prob ;; error_Error (default (ErrText "") cause)) w'
      = Some ("Problem: boom", w').
Proof. eexists _, _, _. split_and!; [reflexivity..|done|reflexivity]. Qed.

Lemma Wrap_problem_or_FromError_witness :
  (∀ l, ErrText "boom" ≠ ErrProblem l) ∧
  ∃ msg prob w',
    error_Error (ErrText "boom") (mkWorld [] []) = Some (msg, mkWorld [] []) ∧
    Wrap (ErrText "boom") (mkWorld [] []) = FromError (ErrText "boom") (mkWorld [] []) ∧
    Wrap (ErrText "boom") (mkWorld [] []) = Some (prob, w') ∧
    heap (mkWorld [] []) !! prob = None ∧
    heap w' !! prob = Some (problem_of 500 msg (ErrText "boom")) ∧
    (∀ l p, heap (mkWorld [] []) !! l = Some p → heap w' !! l = Some p) ∧
    (first <- Wrap (ErrText "boom") ;; second <- Wrap (ErrProblem first) ;;
     ret (first, second)) (mkWorld [] []) = Some ((prob, prob), w').
Proof.
  split; [discriminate|].
  apply (proj2 Wrap_problem_or_FromError (ErrText "boom") (mkWorld [] [])).
  discriminate.
Defined.

(** *** C1 *)



(** * Further properties

    ** Causes in the heap *)

Lemma wrapped_keeps h h' : wrapped h → keeps_causes h h' → wrapped h'.
Proof.
  intros Hw Hk l p l' Hl. destruct (Hk l p Hl) as [(q & Hq & ->)|Hn].
  - by eapply Hw.
  - apply Hn.
Qed.

Lemma keeps_causes_refl h : keeps_causes h h.
Proof. intros l q Hq. left. by exists q. Qed.

Lemma keeps_causes_trans h1 h2 h3 :
  keeps_causes h1 h2 → keeps_causes h2 h3 → keeps_causes h1 h3.
Proof.
  intros H12 H23 l q3 Hq3. destruct (H23 l q3 Hq3) as [(q2 & Hq2 & He)|Hn]; [|by right].
  destruct (H12 l q2 Hq2) as [(q1 & Hq1 & He')|Hn].
  - left. exists q1. split; [done|congruence].
  - right. by rewrite He.
Qed.

Lemma keeps_causes_settles h h' : settles h h' → keeps_causes h h'.
Proof.
  intros [HL HS] l q' Hq'. left.
  assert (is_Some (h !! l)) as [q Hq].
  { apply lookup_lt_is_Some. rewrite <- HL. by eapply lookup_lt_Some. }
  exists q. split; [done|].
  destruct (HS _ _ Hq) as [Hx|Hx]; rewrite Hx in Hq'; injection Hq' as <-; [done|].
  apply err_normalize.
Qed.

Lemma keeps_causes_insert (h : list Problem) l p p' :
  h !! l = Some p → err p' = err p → keeps_causes h (<[l := p']> h).
Proof.
  intros Hl He l0 q' Hq'. left. destruct (decide (l0 = l)) as [->|Hne].
  - rewrite (lookup_updated _ _ _ _ Hl) in Hq'. injection Hq' as <-. by exists p.
  - rewrite list_lookup_insert_ne in Hq' by done. by exists q'.
Qed.

Lemma keeps_causes_app (h : list Problem) q :
  (∀ l', err q ≠ Some (ErrProblem l')) → keeps_causes h (h ++ [q]).
Proof.
  intros Hq l0 q' Hq'. apply lookup_app_Some in Hq' as [Hq'|[_ Hq']].
  - left. by exists q'.
  - right. apply list_lookup_singleton_Some in Hq' as [_ <-]. apply Hq.
Qed.

(** ** [Marshal] beyond its mapping *)

Section MarshalState.
Context `{Encoding}.






(** When [Marshal] returns, each problem of the heap is as it was or
    normalized. *)
Lemma Marshal_settles n renderAs l w p :
  heap w !! l = Some p → ends_within (heap w) n l = true →
  ∃ r w', Marshal (S n) l renderAs w = Some (r, w') ∧
    stdout w' = stdout w ∧
    ∀ l' q, heap w !! l' = Some q →
      heap w' !! l' = Some q ∨ heap w' !! l' = Some (normalize q).
Proof.
  intros Hl He.
  destruct (Marshal_run n renderAs _ _ _ Hl He) as (h' & [_ Hs] & Hl' & ->).
  unfold Marshal_encode.
  destruct (String.eqb renderAs jsonType);
    [|destruct (String.eqb renderAs xmlType)];
    eexists _, _; (split; [reflexivity|]); (split; [reflexivity|]);
    cbn [heap]; intros l' q Hq; destruct (Hs _ _ Hq) as [Hq'|Hq']; auto.
  - left. by apply lookup_app_l_Some.
  - right. by apply lookup_app_l_Some.
Qed.

(** X2. [Marshal] writes to nothing but [Type] and [Title]: when it returns,
    every problem that was in the heap is still there with the same status,
    detail, instance, attributes and cause; its type is the same or was
    empty and is now ["about:blank"]; its title is the same or was empty and
    is now the reason phrase of its status; and nothing has been printed. *)
Theorem Marshal_changes_only_type_and_title n renderAs l w p :
  heap w !! l = Some p → ends_within (heap w) n l = true →
  ∃ r w', Marshal (S n) l renderAs w = Some (r, w') ∧
    stdout w' = stdout w ∧
    ∀ l' q, heap w !! l' = Some q →
      ∃ q', heap w' !! l' = Some q' ∧
        Status q' = Status q ∧ Detail q' = Detail q ∧ Instance q' = Instance q ∧
        Attributes q' = Attributes q ∧ err q' = err q ∧
        (Type_ q' = Type_ q ∨ Type_ q = "" ∧ Type_ q' = "about:blank") ∧
        (Title q' = Title q ∨ Title q = "" ∧ Title q' = http_StatusText (Status q)).
Proof.
  intros Hl He.
  destruct (Marshal_settles n renderAs l w p Hl He) as (r & w' & Hrun & Hout & Hkeep).
  exists r, w'. split; [done|]. split; [done|]. intros l' q Hq.
  destruct (Hkeep _ _ Hq) as [Hq'|Hq'].
  - exists q. split_and!; auto.
  - exists (normalize q). split; [done|].
    destruct q as [ty ti st de ins at' e]. unfold normalize. cbn.
    split_and!; destruct ty, ti; cbn; auto.
Qed.

(** X3. What [GetTitle] returns for a problem is the same before and after
    [Marshal], although [Marshal] rewrites the [Title] field. *)
Theorem Marshal_keeps_GetTitle n renderAs l w p l' t :
  heap w !! l = Some p → ends_within (heap w) n l = true →
  GetTitle l' w = Some (t, w) →
  ∃ r w', Marshal (S n) l renderAs w = Some (r, w') ∧
    GetTitle l' w' = Some (t, w').
Proof.
  intros Hl He Ht.
  destruct (Marshal_settles n renderAs l w p Hl He) as (r & w' & Hrun & _ & Hkeep).
  exists r, w'. split; [done|].
  unfold GetTitle in *. unfold bind, load in Ht.
  destruct (heap w !! l') as [q|] eqn:Hq; [|done].
  destruct (Hkeep _ _ Hq) as [Hq'|Hq']; rewrite (bind_load _ _ _ _ Hq').
  - destruct (String.length (Title q) =? 0)%nat; by injection Ht as <-.
  - destruct q as [ty ti st de ins at' e]. unfold normalize. cbn in *.
    destruct ti as [|c ti]; cbn in *; injection Ht as <-.
    + destruct ty; cbn; by destruct (http_StatusText st).
    + by destruct ty.
Qed.

End MarshalState.

Section MarshalResults.
Context `{Encoding}.

(** X4. Only the render type [json] yields bytes.  For [xml] the result is
    the error of [encoding/xml], which has no encoding for a map, and for any
    other render type it is a new problem of status 500 with the detail
    ["Invalid Marshal type specified"]; in both cases the problem has been
    normalized all the same. *)
Theorem Marshal_bytes_only_for_json n renderAs l w p :
  heap w !! l = Some p → ends_within (heap w) n l = true →
  renderAs ≠ jsonType →
  ∃ e w', Marshal (S n) l renderAs w = Some (Err e, w') ∧
    heap w' !! l = Some (normalize p) ∧
    (renderAs = xmlType →
       e = ErrText "xml: unsupported type: map[string]interface {}" ∧
       length (heap w') = length (heap w)) ∧
    (renderAs ≠ xmlType →
       e = ErrProblem (length (heap w)) ∧
       heap w' !! length (heap w)
       = Some (mkProblem "" "" 500 "Invalid Marshal type specified" "" None None)).
Proof.
  intros Hl He Hj.
  destruct (Marshal_run n renderAs _ _ _ Hl He) as (h' & [HL Hs] & Hl' & ->).
  unfold Marshal_encode.
  apply String.eqb_neq in Hj. rewrite Hj.
  destruct (String.eqb_spec renderAs xmlType) as [->|Hx].
  - eexists _, _. split; [reflexivity|]. cbn [heap]. split_and!; try done.
  - eexists _, _. split; [reflexivity|]. cbn [heap]. split_and!; try done.
    + by apply lookup_app_l_Some.
    + intros _. split; [by rewrite HL|]. rewrite <- HL. apply lookup_fresh.
Qed.



(** X6. [PrettyPrint] prints exactly one line and returns: the indented
    encoding of the mapping when the encoder accepts it, and otherwise the
    message of the encoder's error behind the prefix of a
    [json.MarshalerError].  Like [Marshal], it leaves the problem
    normalized. *)
Theorem PrettyPrint_prints_one_line n l w p :
  heap w !! l = Some p → ends_within (heap w) n l = true →
  ∃ line w',
    PrettyPrint (S n) l w = Some (tt, w') ∧
    stdout w' = stdout w ++ [line] ∧
    heap w' !! l = Some (normalize p) ∧
    length (heap w') = length (heap w) ∧
    match json_Marshal (Marshal_out jsonType (heap w) p) with
    | Ok pp => line = json_Indent pp
    | Err e =>
        ∃ msg, (e = ErrText msg ∨ ∃ inner, e = ErrWrap msg inner) ∧
          line = "json: error calling MarshalJSON for type *problems.Problem: " +:+ msg
    end.
Proof.
  intros Hl He.
  destruct (Marshal_json_run _ _ _ _ Hl He) as (h' & [HL Hs] & Hl' & Hrun).
  unfold PrettyPrint, MarshalJSON. unfold bind at 1. rewrite Hrun.
  destruct (json_Marshal (Marshal_out jsonType (heap w) p)) as [pp|e] eqn:Hj.
  - eexists _, _. split; [reflexivity|]. by split_and!.
  - destruct e as [l0|msg|msg inner].
    + by destruct (json_Marshal_error _ _ l0 Hj).
    + eexists _, _. split; [reflexivity|]. split_and!; try done.
      exists msg. split; [by left|done].
    + eexists _, _. split; [reflexivity|]. split_and!; try done.
      exists msg. split; [right; by eexists|done].
Qed.




End MarshalResults.

(** ** [Set], [New] and [FromErrorWithStatus] *)

Section SetState.
Context `{Encoding}.


Lemma lookup_length_None (h : list Problem) : h !! length h = None.
Proof. by apply lookup_ge_None. Qed.


Lemma range_order_empty : range_order ∅ = [].
Proof. apply Permutation_nil_r. by rewrite range_order_perm, map_to_list_empty. Qed.




(** X10. A problem made by [New] has the status and the detail given and
    nothing else: [StatusCode] is the status, [Error] is the status and the
    message with [": "] between them, [Unwrap] is nil, and [GetTitle] is the
    reason phrase of the status.  It is a new problem: the ones there were
    are unchanged. *)
Theorem New_observers status message w :
  ∃ prob w', New status message w = Some (prob, w') ∧
    heap w !! prob = None ∧
    (∀ l p, heap w !! l = Some p → heap w' !! l = Some p) ∧
    StatusCode prob w' = Some (status, w') ∧
    Problem_Error prob w' = Some (strconv_Itoa status +:+ ": " +:+ message, w') ∧
    Unwrap prob w' = Some (None, w') ∧
    GetTitle prob w' = Some (http_StatusText status, w').
Proof.
  eexists _, _. split; [reflexivity|]. split; [apply lookup_length_None|].
  split; [intros l p Hl; by apply lookup_app_l_Some|].
  unfold StatusCode, Problem_Error, Unwrap, GetTitle.
  by rewrite !(bind_load (mkWorld _ _) _ _ _ (lookup_fresh _ _)).
Qed.

(** X11. [FromErrorWithStatus] makes a new problem with the status given:
    [StatusCode] is that status, [Error] is the status and the message of
    the error, and [Unwrap] is not nil but a new error with the message of
    the given one behind ["Problem: "].  [Marshal] does not follow such a
    cause, also when the error given is a problem: it returns without a
    nested call. *)
Theorem FromErrorWithStatus_observers status e w renderAs :
  (∀ l', e = ErrProblem l' → is_Some (heap w !! l')) →
  ∃ msg prob w',
    error_Error e w = Some (msg, w) ∧
    FromErrorWithStatus status e w = Some (prob, w') ∧
    heap w !! prob = None ∧
    (∀ l p, heap w !! l = Some p → heap w' !! l = Some p) ∧
    StatusCode prob w' = Some (status, w') ∧
    Problem_Error prob w' = Some (strconv_Itoa status +:+ ": " +:+ msg, w') ∧
    Unwrap prob w' = Some (Some (ErrWrap ("Problem: " +:+ msg) e), w') ∧
    is_Some (Marshal 1 prob renderAs w').
Proof.
  intros Hv. eexists _, _, _. split; [by apply error_Error_text|].
  split; [by apply FromErrorWithStatus_run|].
  split; [apply lookup_length_None|].
  split; [intros l p Hl; by apply lookup_app_l_Some|].
  unfold StatusCode, Problem_Error, Unwrap.
  rewrite !(bind_load (mkWorld _ _) _ _ _ (lookup_fresh _ _)).
  split_and!; try done.
  rewrite (Marshal_run_leaf _ _ _ (mkWorld _ _) _ (lookup_fresh _ _)) by done.
  destruct (Marshal_encode_returns renderAs
              (Marshal_out renderAs
                 (heap (mkWorld (heap w ++ [problem_of status (cause_text (heap w) e) e])
                          (stdout w)))
                 (problem_of status (cause_text (heap w) e) e))
              (mkWorld (<[length (heap w) :=
                          normalize (problem_of status (cause_text (heap w) e) e)]>
                         (heap (mkWorld (heap w ++ [problem_of status (cause_text (heap w) e) e])
                          (stdout w))))
                 (stdout (mkWorld (heap w ++ [problem_of status (cause_text (heap w) e) e])
                          (stdout w)))))
    as (r & w' & -> & _).
  by eexists.
Qed.

End SetState.

(** ** [Unmarshal] beyond the round trip *)

Section UnmarshalState.
Context `{Encoding}.

(** X12. [Unmarshal] reads nothing for a render type other than [json]: for
    [xml] the decoder of [encoding/xml] refuses the map, and for any other
    render type the result is a new problem of status 500 whose detail names
    the type.  Either way the error returned is a new problem and the
    problems there were, the target among them, are unchanged: the attributes
    are not reset. *)
Theorem Unmarshal_reads_only_json l renderAs data w :
  renderAs ≠ jsonType →
  ∃ q, Unmarshal l renderAs data w =
       Some (Some (ErrProblem (length (heap w))),
             mkWorld (heap w ++ [q]) (stdout w)) ∧
    Status q = 500 ∧
    (renderAs ≠ xmlType →
       q = mkProblem "" "" 500 (renderAs +:+ " is an invalid type") "" None None).
Proof.
  intros Hj. unfold Unmarshal. apply String.eqb_neq in Hj. rewrite Hj.
  destruct (String.eqb_spec renderAs xmlType) as [->|Hx].
  - unfold xml_Unmarshal, bind. rewrite FromError_run by done.
    eexists. split; [reflexivity|]. by split.
  - eexists. split; [reflexivity|]. by split.
Qed.

(** X13. When [json.Unmarshal] rejects the bytes, [Unmarshal] returns a new
    problem made by [FromError] from the decoder's error (status 500, the
    message as detail) and leaves every existing problem as it was; the
    attributes of the target are not reset. *)
Theorem Unmarshal_decode_failure l data e w :
  json_Unmarshal data = Err e →
  ∃ msg, error_Error e w = Some (msg, w) ∧
    Unmarshal l jsonType data w =
    Some (Some (ErrProblem (length (heap w))),
          mkWorld (heap w ++ [problem_of 500 msg e]) (stdout w)).
Proof.
  intros He. exists (cause_text (heap w) e).
  assert (∀ l', e = ErrProblem l' → is_Some (heap w !! l')) as Hv.
  { intros l' ->. by destruct (json_Unmarshal_error _ _ l' He). }
  split; [by apply error_Error_text|].
  unfold Unmarshal. cbn [String.eqb Ascii.eqb Bool.eqb jsonType]. rewrite He.
  unfold bind. by rewrite FromError_run.
Qed.

Lemma assign_Ok k v p p' :
  assign k v p = Ok p' →
  err p' = err p ∧
  attrs p' = match spelled k with
             | None => <[k := v]> (attrs p)
             | Some _ => attrs p
             end ∧
  ∀ f, spelled k ≠ Some f →
    FieldByName p' (field_name f) = FieldByName p (field_name f).
Proof.
  unfold assign. destruct (spelled k) as [[]|].
  1,2,4,5,6: intros [= <-]; split_and!; try done; by intros [].
  destruct (strconv_Atoi _); [|done]. intros [= <-]. split_and!; try done.
  by intros [].
Qed.

Lemma assign_Err k v p e :
  assign k v p = Err e →
  spelled k = Some FStatus ∧ strconv_Atoi (fmt_Sprint v) = Err e.
Proof.
  unfold assign. destruct (spelled k) as [[]|]; try done.
  destruct (strconv_Atoi _); [done|]. by intros [= <-].
Qed.

(** The loop of [Unmarshal], whatever the keys. *)
Lemma Unmarshal_range_any l entries w p :
  heap w !! l = Some p →
  ∃ r w' p', Unmarshal_range l entries w = Some (r, w') ∧
    heap w' !! l = Some p' ∧
    err p' = err p ∧
    (∀ k, k ∉ entries.*1 → attrs p' !! k = attrs p !! k) ∧
    (∀ k v, attrs p' !! k = Some v →
       attrs p !! k = Some v ∨ (k, v) ∈ entries ∧ spelled k = None) ∧
    (r = None → NoDup entries.*1 →
       ∀ k v, (k, v) ∈ entries → spelled k = None → attrs p' !! k = Some v) ∧
    (∀ f, (∀ k v, (k, v) ∈ entries → spelled k ≠ Some f) →
       FieldByName p' (field_name f) = FieldByName p (field_name f)) ∧
    (∀ l' q, l' ≠ l → heap w !! l' = Some q → heap w' !! l' = Some q) ∧
    (r = None → stdout w' = stdout w ∧ length (heap w') = length (heap w)) ∧
    (r ≠ None →
       ∃ k v e, (k, v) ∈ entries ∧ spelled k = Some FStatus ∧
         strconv_Atoi (fmt_Sprint v) = Err e ∧
         r = Some (ErrProblem (length (heap w)))) ∧
    keeps_causes (heap w) (heap w').
Proof.
  revert w p. induction entries as [|[k v] entries IH]; intros w p Hl.
  { exists None, w, p. split_and!; try done.
    - intros k v Hk. by left.
    - intros _ _ k v Hk. by apply elem_of_nil in Hk.
    - apply keeps_causes_refl. }
  cbn [Unmarshal_range]. unfold bind at 1.
  rewrite (Unmarshal_entry_run _ _ _ _ _ Hl).
  destruct (assign k v p) as [p1|e] eqn:Ha.
  - apply assign_Ok in Ha as (He1 & Ha1 & Hf1).
    destruct (IH (mkWorld (<[l := p1]> (heap w)) (stdout w)) p1)
      as (r & w' & p' & -> & Hl' & He & Hout & Hin & Hall & Hf & Hoth & Hnil & Herr & Hk);
      [by eapply lookup_updated|].
    exists r, w', p'. cbn [heap stdout] in *. split_and!; try done.
    + congruence.
    + intros k0 Hk0. rewrite fmap_cons, not_elem_of_cons in Hk0.
      destruct Hk0 as [Hne Hk0]. cbn in Hne. rewrite (Hout _ Hk0), Ha1.
      destruct (spelled k); [done|]. by rewrite lookup_insert_ne.
    + intros k0 v0 Hk0. destruct (Hin _ _ Hk0) as [Hp1|[Hmem Hs]].
      * rewrite Ha1 in Hp1. destruct (spelled k) eqn:Hsk; [by left|].
        apply lookup_insert_Some in Hp1 as [[<- <-]|[_ Hp1]]; [|by left].
        right. split; [by left|done].
      * right. split; [by right|done].
    + intros Hr Hnd k0 v0 Hk0 Hs0. rewrite fmap_cons in Hnd.
      apply NoDup_cons in Hnd as [Hnotin Hnd]. cbn in Hnotin.
      apply elem_of_cons in Hk0 as [[= -> ->]|Hk0].
      * rewrite (Hout _ Hnotin), Ha1, Hs0. apply lookup_insert_eq.
      * by apply Hall.
    + intros f Hnone. rewrite Hf.
      * apply Hf1. apply (Hnone k v). by left.
      * intros k0 v0 Hk0. apply (Hnone k0 v0). by right.
    + intros l' q Hne Hq. apply Hoth; [done|]. by rewrite list_lookup_insert_ne.
    + intros Hr. destruct (Hnil Hr) as [-> ->]. split; [done|apply length_insert].
    + intros Hr. destruct (Herr Hr) as (k0 & v0 & e & Hmem & Hs & Hat & ->).
      exists k0, v0, e. split_and!; try done; [by right|].
      by rewrite length_insert.
    + eapply keeps_causes_trans; [|done]. by eapply keeps_causes_insert.
  - apply assign_Err in Ha as [Hs Hat].
    eexists _, _, p. split; [reflexivity|]. cbn [heap stdout].
    split_and!; try done.
    + by apply lookup_app_l_Some.
    + intros k0 v0 Hk0. by left.
    + intros l' q _ Hq. by apply lookup_app_l_Some.
    + intros _. exists k, v, e. split_and!; try done. by left.
    + by apply keeps_causes_app.
Qed.


End UnmarshalState.

(** ** [Render] *)

Section RenderCalls.
Context `{Encoding} `{ResponseWriter W}.

(** X15. [Render] sets the content type to [application/problem+json]
    first, whatever follows; it then writes the status line with the
    [Status] field, unless that is 0; and it ends by writing, in one call,
    the encoding of the mapping of [Marshal] and a newline, returning what
    that call returns.  The status line is that of the field, also when an
    attribute has replaced ["status"] in the body.  When the encoder refuses
    the mapping, nothing more is written, the header and the status line
    have gone out, and the error is returned inside a
    [json.MarshalerError].  Like [Marshal], it leaves the problem
    normalized. *)
Theorem Render_calls n l (wr : W) w p :
  heap w !! l = Some p → ends_within (heap w) n l = true →
  let headed := Header_Set "Content-Type" "application/problem+json" wr in
  let started :=
    if Status p =? 0 then headed
    else ResponseWriter_WriteHeader (Status p) headed in
  ∃ w', heap w' !! l = Some (normalize p) ∧ stdout w' = stdout w ∧
    Render (S n) l wr w =
    Some (match json_Marshal (Marshal_out jsonType (heap w) p) with
          | Ok b => ResponseWriter_Write (b +:+ newline) started
          | Err e =>
              (started,
               Some (ErrWrap
                       ("json: error calling MarshalJSON for type *problems.Problem: "
                        +:+ cause_text (heap w) e) e))
          end, w').
Proof.
  intros Hl He headed started.
  destruct (Marshal_json_run _ _ _ _ Hl He) as (h' & Hs & Hl' & Hrun).
  exists (mkWorld h' (stdout w)). split; [done|]. split; [done|].
  unfold Render, Encoder_Encode, MarshalJSON, ProblemMediaType.
  rewrite (bind_load _ _ _ _ Hl). unfold bind at 1. rewrite Hrun.
  fold headed.
  replace (if negb (Status p =? 0) then ResponseWriter_WriteHeader (Status p) headed
           else headed) with started by (unfold started; by destruct (Status p =? 0)).
  destruct (json_Marshal (Marshal_out jsonType (heap w) p)) as [b|e] eqn:Hj; [done|].
  unfold bind. rewrite error_Error_text.
  - unfold ret. cbn [heap]. by rewrite (cause_text_settles _ _ e Hs).
  - intros l' ->. by destruct (json_Marshal_error _ _ l' Hj).
Qed.

End RenderCalls.

(** ** The catalog *)

Section CatalogProblems.
Context `{Encoding}.

Lemma Set_fresh depth h so q key v f :
  spelled key = Some f →
  Set_ depth (length h) key v (mkWorld (h ++ [q]) so) =
  match f with
  | FType => Some (None, mkWorld (h ++ [set_Type (fmt_Sprint v) q]) so)
  | FTitle => Some (None, mkWorld (h ++ [set_Title (fmt_Sprint v) q]) so)
  | FStatus =>
      Some (Some (ErrProblem (S (length h))),
            mkWorld ((h ++ [q]) ++ [mkProblem "" "" 500 "Cannot set status with Set" "" None None])
                    so)
  | FDetail => Some (None, mkWorld (h ++ [set_Detail (fmt_Sprint v) q]) so)
  | FInstance => Some (None, mkWorld (h ++ [set_Instance (fmt_Sprint v) q]) so)
  end.
Proof.
  intros Hs.
  rewrite (Set_fixed_run depth _ key v (mkWorld (h ++ [q]) so) q f (lookup_fresh _ _) Hs).
  cbn [heap stdout]. rewrite !insert_fresh, length_app. cbn [length].
  by rewrite Nat.add_1_r.
Qed.

Lemma Set_fresh_extension depth h so q key v :
  spelled key = None → Type_ q ≠ "" → Type_ q ≠ "about:blank" →
  Set_ depth (length h) key v (mkWorld (h ++ [q]) so) =
  Some (None, mkWorld (h ++ [set_Attributes (Some (<[key := v]> (attrs q))) q]) so).
Proof.
  intros Hs Hty Hty'.
  rewrite (Set_extension_run depth _ key v (mkWorld (h ++ [q]) so) q
             (lookup_fresh _ _) Hs Hty Hty').
  cbn [heap stdout]. by rewrite insert_fresh.
Qed.

Ltac run_catalog :=
  unfold New; rewrite bind_alloc;
  repeat first
    [ rewrite (bind_modify (mkWorld _ _) _ _ _ _ (lookup_fresh _ _));
      cbn [heap stdout]; rewrite insert_fresh
    | unfold bind at 1; rewrite (Set_fresh _ _ _ _ "Type" _ FType eq_refl)
    | unfold bind at 1; rewrite (Set_fresh _ _ _ _ "Title" _ FTitle eq_refl) ].

(** The problems of the catalog that take no cause. *)
Lemma catalog_runs depth scopes detail w :
  GetNoAccessResponse depth w =
    Some (length (heap w),
          mkWorld (heap w ++ [mkProblem TypeNoAccessToken "No Access Token" 401
            "No Bearer access token found in Authorization HTTP header" "" None None])
            (stdout w)) ∧
  GetInvalidTokenResponse depth w =
    Some (length (heap w),
          mkWorld (heap w ++ [mkProblem TypeInvalidToken "Invalid Access Token" 401
            "The Bearer access token found in the Authorization HTTP header is invalid"
            "" None None]) (stdout w)) ∧
  GetExpiredTokenResponse depth w =
    Some (length (heap w),
          mkWorld (heap w ++ [mkProblem TypeTokenExpired "Expired Access Token" 401
            "The Bearer access token found in the Authorization HTTP header has expired"
            "" None None]) (stdout w)) ∧
  GetMissingScopeResponse depth scopes w =
    Some (length (heap w),
          mkWorld (heap w ++ [mkProblem TypeMissingScope "Missing Scope" 403
            "Forbidden to consult the resource" ""
            (Some {["requiredScopes" := VSlice (VString <$> scopes)]}) None])
            (stdout w)) ∧
  GetMissingPermission depth w =
    Some (length (heap w),
          mkWorld (heap w ++ [mkProblem TypeMissingPermission "Missing Permission" 403
            "Not permitted to update the details of this resource" "" None None])
            (stdout w)) ∧
  GetInternalErrorResponse depth detail w =
    Some (length (heap w),
          mkWorld (heap w ++ [mkProblem TypeInternalServerError "Internal Server Error"
            500 detail "" None None]) (stdout w)).
Proof.
  split_and!.
  - unfold GetNoAccessResponse. run_catalog. reflexivity.
  - unfold GetInvalidTokenResponse. run_catalog. reflexivity.
  - unfold GetExpiredTokenResponse. run_catalog. reflexivity.
  - unfold GetMissingScopeResponse. run_catalog.
    unfold bind at 1. rewrite Set_fresh_extension by done. reflexivity.
  - unfold GetMissingPermission. run_catalog. reflexivity.
  - unfold GetInternalErrorResponse, http_StatusInternalServerError. run_catalog.
    reflexivity.
Qed.

End CatalogProblems.

Section CatalogClaims.
Context `{Encoding}.


(** X17. The scopes of [GetMissingScopeResponse] are stored under
    ["requiredScopes"] and written under ["requiredscopes"]: the mapping
    that [Marshal] encodes for the problem is the four fixed entries and
    that one. *)
Theorem GetMissingScopeResponse_mapping depth scopes w :
  ∃ w',
    (prob <- GetMissingScopeResponse depth scopes ;; Marshal 1 prob jsonType) w
    = Some (json_Marshal
              {[ "type" := VString "urn:problem-type:missingScope";
                 "title" := VString "Missing Scope";
                 "status" := VInt 403;
                 "detail" := VString "Forbidden to consult the resource";
                 "requiredscopes" := VSlice (VString <$> scopes) ]}, w') ∧
    ∃ p', heap w' !! length (heap w) = Some p' ∧
      attrs p' = {[ "requiredScopes" := VSlice (VString <$> scopes) ]}.
Proof.
  destruct (catalog_runs depth scopes "" w) as (_ & _ & _ & Hrun & _).
  unfold bind at 1. rewrite Hrun.
  rewrite (Marshal_run_leaf _ _ _ (mkWorld _ _) _ (lookup_fresh _ _)) by done.
  rewrite Marshal_encode_json. cbn [heap stdout]. rewrite insert_fresh.
  eexists. split.
  - f_equal. f_equal. f_equal. unfold Marshal_out.
    rewrite Marshal_fields_unrolled.
    change (attrs _) with ({["requiredScopes" := VSlice (VString <$> scopes)]}
                           : gmap string value).
    rewrite range_order_singleton. generalize (VSlice (VString <$> scopes)).
    intros x. vm_compute. reflexivity.
  - eexists. split; [apply lookup_fresh|reflexivity].
Qed.

Lemma GetErrorResponseFromError_run depth e w :
  (∀ l', e = ErrProblem l' → is_Some (heap w !! l')) →
  GetErrorResponseFromError depth e w =
  Some (length (heap w),
        mkWorld (heap w ++ [set_Type TypeInternalServerError
                              (problem_of 500 (cause_text (heap w) e) e)])
                (stdout w)).
Proof.
  intros Hv. unfold GetErrorResponseFromError. unfold bind at 1.
  rewrite (FromError_run _ _ Hv). unfold bind at 1.
  by rewrite (Set_fresh _ _ _ _ "Type" _ FType eq_refl).
Qed.

(** X18. A problem from [GetErrorResponseFromError] shows its cause: the
    type is set, so the mapping that [Marshal] encodes has an ["error"] entry,
    the message of the given error behind ["Problem: "]; the detail is that
    message, the status 500, and the title, which the constructor leaves
    empty, is resolved to ["Internal Server Error"]. *)
Theorem GetErrorResponseFromError_mapping depth e w :
  (∀ l', e = ErrProblem l' → is_Some (heap w !! l')) →
  ∃ msg w',
    error_Error e w = Some (msg, w) ∧
    (prob <- GetErrorResponseFromError depth e ;; Marshal 1 prob jsonType) w
    = Some (json_Marshal
              {[ "type" := VString "urn:problem-type:internalServerError";
                 "title" := VString "Internal Server Error";
                 "status" := VInt 500;
                 "detail" := VString msg;
                 "error" := VString ("Problem: " +:+ msg) ]}, w').
Proof.
  intros Hv. exists (cause_text (heap w) e). eexists.
  split; [by apply error_Error_text|].
  unfold bind at 1. rewrite (GetErrorResponseFromError_run _ _ _ Hv).
  rewrite (Marshal_run_leaf _ _ _ (mkWorld _ _) _ (lookup_fresh _ _)) by done.
  rewrite Marshal_encode_json. cbn [heap stdout]. rewrite insert_fresh.
  f_equal. f_equal. f_equal. unfold Marshal_out.
  rewrite Marshal_fields_unrolled.
  change (attrs _) with (∅ : gmap string value). rewrite range_order_empty.
  generalize (cause_text (heap w) e). intros msg.
  unfold with_cause, problem_of. cbn [err set_Type normalize Type_].
  vm_compute. reflexivity.
Qed.

End CatalogClaims.

(** ** Causes stay wrapped *)

Section Wrapped.
Context `{Encoding}.

Lemma wrapped_nests h l p : wrapped h → h !! l = Some p → nests p = None.
Proof.
  intros Hw Hl. unfold nests. destruct (err p) as [[l'| |]|] eqn:He; try done.
  by destruct (Hw l p l' Hl).
Qed.

Lemma wrapped_ends h l p n : wrapped h → h !! l = Some p → ends_within h n l = true.
Proof.
  intros Hw Hl. destruct n; cbn [ends_within]; by rewrite Hl, (wrapped_nests _ _ _ Hw Hl).
Qed.

Lemma Marshal_encode_wrapped renderAs out w :
  wrapped (heap w) →
  ∃ r w', Marshal_encode renderAs out w = Some (r, w') ∧ wrapped (heap w').
Proof.
  intros Hw. unfold Marshal_encode.
  destruct (String.eqb renderAs jsonType); [by eexists _, _|].
  destruct (String.eqb renderAs xmlType); [by eexists _, _|].
  eexists _, _. split; [reflexivity|]. cbn [heap].
  apply (wrapped_keeps _ _ Hw). by apply keeps_causes_app.
Qed.

Lemma Marshal_wrapped n renderAs l w p :
  wrapped (heap w) → heap w !! l = Some p →
  ∃ r w', Marshal (S n) l renderAs w = Some (r, w') ∧ wrapped (heap w').
Proof.
  intros Hw Hl.
  destruct (Marshal_run n renderAs _ _ _ Hl (wrapped_ends _ _ _ n Hw Hl))
    as (h' & Hs & _ & ->).
  apply Marshal_encode_wrapped. cbn [heap].
  apply (wrapped_keeps _ _ Hw). by apply keeps_causes_settles.
Qed.

(** X19. The constructors never store a problem as a cause: on a heap where
    no cause is a problem, [New], [FromErrorWithStatus], [FromError],
    [Wrap], the constructors of the catalog and [GetErrorResponseFromError]
    return and leave such a heap; the cause that [FromErrorWithStatus]
    stores is a wrapper around the error given, also when that error is a
    problem. *)
Theorem constructors_wrap_causes w :
  wrapped (heap w) →
  (∀ status message,
     ∃ prob w', New status message w = Some (prob, w') ∧ wrapped (heap w')) ∧
  (∀ status e, (∀ l', e = ErrProblem l' → is_Some (heap w !! l')) →
     ∃ prob w' p msg,
       FromErrorWithStatus status e w = Some (prob, w') ∧ wrapped (heap w') ∧
       heap w' !! prob = Some p ∧ err p = Some (ErrWrap msg e)) ∧
  (∀ e, (∀ l', e = ErrProblem l' → is_Some (heap w !! l')) →
     (∃ prob w', FromError e w = Some (prob, w') ∧ wrapped (heap w')) ∧
     (∃ prob w', Wrap e w = Some (prob, w') ∧ wrapped (heap w')) ∧
     (∀ depth, ∃ prob w',
        GetErrorResponseFromError depth e w = Some (prob, w') ∧ wrapped (heap w'))) ∧
  (∀ depth scopes detail c, c ∈ catalog depth scopes detail →
     ∃ prob w', c w = Some (prob, w') ∧ wrapped (heap w')).
Proof.
  intros Hw. split_and!.
  - intros status message. eexists _, _. split; [reflexivity|]. cbn [heap].
    apply (wrapped_keeps _ _ Hw). by apply keeps_causes_app.
  - intros status e Hv. rewrite (FromErrorWithStatus_run _ _ _ Hv).
    eexists _, _, _, _. split; [reflexivity|]. cbn [heap].
    split; [|split; [apply lookup_fresh|reflexivity]].
    apply (wrapped_keeps _ _ Hw). by apply keeps_causes_app.
  - intros e Hv.
    assert (wrapped (heap w ++ [problem_of 500 (cause_text (heap w) e) e])) as Hw'.
    { apply (wrapped_keeps _ _ Hw). by apply keeps_causes_app. }
    split_and!.
    + rewrite (FromError_run _ _ Hv). by eexists _, _.
    + destruct e as [l'| |]; [by exists l', w|..]; cbn [Wrap]; unfold bind;
        rewrite (FromError_run _ _ Hv); by eexists _, _.
    + intros depth. rewrite (GetErrorResponseFromError_run _ _ _ Hv).
      eexists _, _. split; [reflexivity|]. cbn [heap].
      apply (wrapped_keeps _ _ Hw). by apply keeps_causes_app.
  - intros depth scopes detail c Hc.
    destruct (catalog_runs depth scopes detail w) as (H1 & H2 & H3 & H4 & H5 & H6).
    unfold catalog in Hc.
    repeat (apply elem_of_cons in Hc as [->|Hc]);
      [rewrite H1|rewrite H2|rewrite H3|rewrite H4|rewrite H5|rewrite H6
      |by apply elem_of_nil in Hc];
      eexists _, _; (split; [reflexivity|]); cbn [heap];
      apply (wrapped_keeps _ _ Hw); by apply keeps_causes_app.
Qed.

Lemma Set_wrapped depth l key v w p :
  wrapped (heap w) → heap w !! l = Some p →
  ∃ r w', Set_ (S depth) l key v w = Some (r, w') ∧ wrapped (heap w').
Proof.
  intros Hw Hl. destruct (spelled key) as [f|] eqn:Hs.
  - rewrite (Set_fixed_run _ _ _ _ _ _ _ Hl Hs).
    destruct f; eexists _, _; (split; [reflexivity|]); cbn [heap];
      apply (wrapped_keeps _ _ Hw);
      first [by eapply keeps_causes_insert | by apply keeps_causes_app].
  - destruct (String.eqb_spec (Type_ p) "") as [Hty|Hty];
      [|destruct (String.eqb_spec (Type_ p) "about:blank") as [Hty'|Hty']].
    1,2: destruct (Set_guarded_run depth l key v w p Hl Hs) as (line & ->); [by auto|];
         eexists _, _; (split; [reflexivity|]); cbn [heap];
         apply (wrapped_keeps _ _ Hw); by apply keeps_causes_app.
    rewrite (Set_extension_run _ _ _ _ _ _ Hl Hs Hty Hty').
    eexists _, _. split; [reflexivity|]. cbn [heap].
    apply (wrapped_keeps _ _ Hw). by eapply keeps_causes_insert.
Qed.

Lemma Unmarshal_wrapped l renderAs data w p :
  wrapped (heap w) → heap w !! l = Some p →
  ∃ r w', Unmarshal l renderAs data w = Some (r, w') ∧ wrapped (heap w').
Proof.
  intros Hw Hl. unfold Unmarshal.
  destruct (String.eqb renderAs jsonType).
  - destruct (json_Unmarshal data) as [target|e] eqn:Hd.
    + rewrite (bind_modify _ _ _ _ _ Hl).
      destruct (Unmarshal_range_any l (range_order target)
                  (mkWorld (<[l := set_Attributes (Some ∅) p]> (heap w)) (stdout w))
                  (set_Attributes (Some ∅) p))
        as (r & w' & p' & -> & _ & _ & _ & _ & _ & _ & _ & _ & _ & Hk);
        [by eapply lookup_updated|].
      exists r, w'. split; [done|]. apply (wrapped_keeps _ _ Hw).
      eapply keeps_causes_trans; [|exact Hk]. by eapply keeps_causes_insert.
    + unfold bind. rewrite FromError_run.
      * eexists _, _. split; [reflexivity|]. cbn [heap].
        apply (wrapped_keeps _ _ Hw). by apply keeps_causes_app.
      * intros l' ->. by destruct (json_Unmarshal_error _ _ l' Hd).
  - destruct (String.eqb renderAs xmlType).
    + unfold xml_Unmarshal, bind. rewrite FromError_run by done.
      eexists _, _. split; [reflexivity|]. cbn [heap].
      apply (wrapped_keeps _ _ Hw). by apply keeps_causes_app.
    + eexists _, _. split; [reflexivity|]. cbn [heap].
      apply (wrapped_keeps _ _ Hw). by apply keeps_causes_app.
Qed.

(** X20. The methods keep causes wrapped, and so they always return: on a
    heap where no cause is a problem, [Marshal] never makes a nested call
    (any depth from 1 on is enough), and [Set], [Marshal], [PrettyPrint],
    [Unmarshal] and [Render] on a problem of the heap return and leave such a
    heap.  The branch of [Marshal] for a cause that is a problem is taken
    for no problem that the package has built. *)
Theorem methods_keep_causes_wrapped l w p :
  wrapped (heap w) → heap w !! l = Some p →
  (∀ depth key v,
     ∃ r w', Set_ (S depth) l key v w = Some (r, w') ∧ wrapped (heap w')) ∧
  (∀ n renderAs,
     ∃ r w', Marshal (S n) l renderAs w = Some (r, w') ∧ wrapped (heap w')) ∧
  (∀ n, ∃ w', PrettyPrint (S n) l w = Some (tt, w') ∧ wrapped (heap w')) ∧
  (∀ renderAs data,
     ∃ r w', Unmarshal l renderAs data w = Some (r, w') ∧ wrapped (heap w')) ∧
  (∀ W (writer : ResponseWriter W) n (wr : W),
     ∃ r w', Render (S n) l wr w = Some (r, w') ∧ wrapped (heap w')).
Proof.
  intros Hw Hl.
  assert (∀ n, ∃ h', wrapped h' ∧
            Marshal (S n) l jsonType w =
            Some (json_Marshal (Marshal_out jsonType (heap w) p), mkWorld h' (stdout w)))
    as Hjson.
  { intros n.
    destruct (Marshal_json_run n _ _ _ Hl (wrapped_ends _ _ _ n Hw Hl))
      as (h' & Hs & _ & ->).
    exists h'. split; [|done]. apply (wrapped_keeps _ _ Hw).
    by apply keeps_causes_settles. }
  split_and!.
  - intros depth key v. by eapply Set_wrapped.
  - intros n renderAs. by eapply Marshal_wrapped.
  - intros n. destruct (Hjson n) as (h' & Hw' & Hrun).
    unfold PrettyPrint, MarshalJSON. unfold bind at 1. rewrite Hrun.
    destruct (json_Marshal _) as [pp|e] eqn:Hj; [by eexists|].
    unfold bind. rewrite error_Error_text; [by eexists|].
    intros l' ->. by destruct (json_Marshal_error _ _ l' Hj).
  - intros renderAs data. by eapply Unmarshal_wrapped.
  - intros W writer n wr. destruct (Hjson n) as (h' & Hw' & Hrun).
    unfold Render, Encoder_Encode, MarshalJSON.
    rewrite (bind_load _ _ _ _ Hl). unfold bind at 1. rewrite Hrun.
    destruct (json_Marshal _) as [b|e] eqn:Hj; [by eexists _, _|].
    unfold bind. rewrite error_Error_text; [by eexists _, _|].
    intros l' ->. by destruct (json_Marshal_error _ _ l' Hj).
Qed.

End Wrapped.

(** ** Runs of the further properties *)


Lemma Marshal_changes_only_type_and_title_witness :
  let w := mkWorld [inner_example; nesting_example] [] in
  ∃ r w', Marshal (H := plain) 2 1 jsonType w = Some (r, w') ∧
    stdout w' = stdout w ∧
    ∀ l' q, heap w !! l' = Some q →
      ∃ q', heap w' !! l' = Some q' ∧
        Status q' = Status q ∧ Detail q' = Detail q ∧ Instance q' = Instance q ∧
        Attributes q' = Attributes q ∧ err q' = err q ∧
        (Type_ q' = Type_ q ∨ Type_ q = "" ∧ Type_ q' = "about:blank") ∧
        (Title q' = Title q ∨ Title q = "" ∧ Title q' = http_StatusText (Status q)).
Proof.
  intros w.
  apply (Marshal_changes_only_type_and_title (H := plain) 1 jsonType 1 w nesting_example);
    reflexivity.
Defined.

Lemma Marshal_keeps_GetTitle_witness :
  let w := mkWorld [inner_example; nesting_example] [] in
  GetTitle 0 w = Some ("Internal Server Error", w) ∧
  ∃ r w', Marshal (H := plain) 2 1 jsonType w = Some (r, w') ∧
    GetTitle 0 w' = Some ("Internal Server Error", w').
Proof.
  intros w. split; [reflexivity|].
  apply (Marshal_keeps_GetTitle (H := plain) 1 jsonType 1 w nesting_example 0%nat
           "Internal Server Error"); reflexivity.
Defined.

Lemma Marshal_bytes_only_for_json_witness :
  let w := mkWorld [inner_example] [] in
  ∃ e w', Marshal (H := plain) 1 0 "yaml" w = Some (Err e, w') ∧
    heap w' !! 0%nat = Some (normalize inner_example) ∧
    ("yaml" = xmlType →
       e = ErrText "xml: unsupported type: map[string]interface {}" ∧
       length (heap w') = length (heap w)) ∧
    ("yaml" ≠ xmlType →
       e = ErrProblem (length (heap w)) ∧
       heap w' !! length (heap w)
       = Some (mkProblem "" "" 500 "Invalid Marshal type specified" "" None None)).
Proof.
  intros w.
  apply (Marshal_bytes_only_for_json (H := plain) 0 "yaml" 0 w inner_example);
    [reflexivity|reflexivity|discriminate].
Defined.


Lemma PrettyPrint_prints_one_line_witness :
  let w := mkWorld [extended_example] [] in
  ∃ line w',
    PrettyPrint (H := plain) 1 0 w = Some (tt, w') ∧
    stdout w' = stdout w ++ [line] ∧
    heap w' !! 0%nat = Some (normalize extended_example) ∧
    length (heap w') = length (heap w) ∧
    match @json_Marshal plain (Marshal_out (H := plain) jsonType (heap w) extended_example) with
    | Ok pp => line = @json_Indent plain pp
    | Err e =>
        ∃ msg, (e = ErrText msg ∨ ∃ inner, e = ErrWrap msg inner) ∧
          line = "json: error calling MarshalJSON for type *problems.Problem: " +:+ msg
    end.
Proof.
  intros w.
  apply (PrettyPrint_prints_one_line (H := plain) 0 0 w extended_example); reflexivity.
Defined.



(** What the refused [Set] prints. *)
Example Set_guard_output :
  Set_ (H := plain) 1 0 "TraceID" (VString "12345-67890") (mkWorld [inner_example] [])
  = Some (Some (ErrProblem 1),
          mkWorld [inner_example;
                   mkProblem "about:blank" "Internal Server Error" 500
                     "Cannot set extended attributes unless Type is set" "" None
                     (Some (ErrWrap "Problem: 500: disk full" (ErrProblem 0)))]
            ["map[detail:Cannot set extended attributes unless Type is set status:500 title:Internal Server Error type:about:blank]"]).
Proof. vm_compute. reflexivity. Qed.


Lemma FromErrorWithStatus_observers_witness :
  let w := mkWorld [] [] in
  ∃ msg prob w',
    error_Error (ErrText "boom") w = Some (msg, w) ∧
    FromErrorWithStatus 404 (ErrText "boom") w = Some (prob, w') ∧
    heap w !! prob = None ∧
    (∀ l p, heap w !! l = Some p → heap w' !! l = Some p) ∧
    StatusCode prob w' = Some (404, w') ∧
    Problem_Error prob w' = Some (strconv_Itoa 404 +:+ ": " +:+ msg, w') ∧
    Unwrap prob w' = Some (Some (ErrWrap ("Problem: " +:+ msg) (ErrText "boom")), w') ∧
    is_Some (Marshal (H := plain) 1 prob jsonType w').
Proof.
  intros w.
  apply (FromErrorWithStatus_observers (H := plain) 404 (ErrText "boom") w jsonType).
  intros l' Hl'. discriminate Hl'.
Defined.

Lemma Unmarshal_reads_only_json_witness :
  let w := mkWorld [extended_example] [] in
  ∃ q, Unmarshal (H := plain) 0 "yaml" "type: about:blank" w =
       Some (Some (ErrProblem (length (heap w))),
             mkWorld (heap w ++ [q]) (stdout w)) ∧
    Status q = 500 ∧
    ("yaml" ≠ xmlType →
       q = mkProblem "" "" 500 ("yaml" +:+ " is an invalid type") "" None None).
Proof.
  intros w.
  apply (Unmarshal_reads_only_json (H := plain) 0 "yaml" "type: about:blank" w).
  discriminate.
Defined.

Lemma Unmarshal_decode_failure_witness :
  let w := mkWorld [extended_example] [] in
  let e := ErrText "invalid character looking for beginning of value" in
  @json_Unmarshal plain "not json" = Err e ∧
  ∃ msg, error_Error e w = Some (msg, w) ∧
    Unmarshal (H := plain) 0 jsonType "not json" w =
    Some (Some (ErrProblem (length (heap w))),
          mkWorld (heap w ++ [problem_of 500 msg e]) (stdout w)).
Proof.
  intros w e. split; [vm_compute; reflexivity|].
  apply (Unmarshal_decode_failure (H := plain) 0 "not json" e w).
  vm_compute. reflexivity.
Defined.


(** [Unmarshal] into a problem that is not fresh: the detail and the status,
    which the document does not name, stay. *)
Example Unmarshal_merges :
  Unmarshal (H := reader {["TYPE" := VString "other"]}) 0 jsonType "map[TYPE:other]"
    (mkWorld [set_Attributes (Some {["old" := VInt 1]}) inner_example] [])
  = Some (None,
          mkWorld [mkProblem "" "" 500 "disk full" ""
                     (Some {["TYPE" := VString "other"]}) None] []).
Proof. vm_compute. reflexivity. Qed.

Lemma Render_calls_witness :
  let w := mkWorld [extended_example] [] in
  let wr : list call := [] in
  let headed := Header_Set (ResponseWriter := recorder)
                  "Content-Type" "application/problem+json" wr in
  let started :=
    if Status extended_example =? 0 then headed
    else ResponseWriter_WriteHeader (ResponseWriter := recorder)
           (Status extended_example) headed in
  ∃ w', heap w' !! 0%nat = Some (normalize extended_example) ∧ stdout w' = stdout w ∧
    Render (H := plain) (H0 := recorder) 1 0 wr w =
    Some (match @json_Marshal plain
                  (Marshal_out (H := plain) jsonType (heap w) extended_example) with
          | Ok b => ResponseWriter_Write (ResponseWriter := recorder) (b +:+ newline) started
          | Err e =>
              (started,
               Some (ErrWrap
                       ("json: error calling MarshalJSON for type *problems.Problem: "
                        +:+ cause_text (heap w) e) e))
          end, w').
Proof.
  intros w wr.
  apply (Render_calls (H := plain) (H0 := recorder) 0 0 wr w extended_example);
    reflexivity.
Defined.

(** The calls of [Render] on a problem of status 0: no status line. *)
Example Render_without_status :
  ∃ w', Render (H := plain) (H0 := recorder) 1 0 [] (mkWorld [zero_Problem] [])
  = Some (([Call_Header_Set "Content-Type" "application/problem+json";
            Call_Write ("map[detail: status:0 title: type:about:blank]" +:+ newline)],
           None), w').
Proof. eexists. vm_compute. reflexivity. Qed.


Lemma GetErrorResponseFromError_mapping_witness :
  let w := mkWorld [] [] in
  ∃ msg w',
    error_Error (ErrText "boom") w = Some (msg, w) ∧
    (prob <- GetErrorResponseFromError (H := plain) 0 (ErrText "boom") ;;
     Marshal (H := plain) 1 prob jsonType) w
    = Some (@json_Marshal plain
              {[ "type" := VString "urn:problem-type:internalServerError";
                 "title" := VString "Internal Server Error";
                 "status" := VInt 500;
                 "detail" := VString msg;
                 "error" := VString ("Problem: " +:+ msg) ]}, w').
Proof.
  intros w.
  apply (GetErrorResponseFromError_mapping (H := plain) 0 (ErrText "boom") w).
  intros l' Hl'. discriminate Hl'.
Defined.

Lemma constructors_wrap_causes_witness :
  let w := mkWorld [] [] in
  ∃ prob w' p msg,
    FromErrorWithStatus 404 (ErrText "boom") w = Some (prob, w') ∧ wrapped (heap w') ∧
    heap w' !! prob = Some p ∧ err p = Some (ErrWrap msg (ErrText "boom")).
Proof.
  intros w.
  assert (wrapped (heap w)) as Hw.
  { intros l p l' Hl. destruct l; discriminate Hl. }
  apply (proj1 (proj2 (constructors_wrap_causes (H := plain) w Hw)) 404 (ErrText "boom")).
  intros l' Hl'. discriminate Hl'.
Defined.

Lemma methods_keep_causes_wrapped_witness :
  let w := mkWorld [inner_example] [] in
  ∃ r w', Marshal (H := plain) 1 0 jsonType w = Some (r, w') ∧ wrapped (heap w').
Proof.
  intros w.
  assert (wrapped (heap w)) as Hw.
  { intros l p l' Hl. destruct l as [|l]; [|destruct l; discriminate Hl].
    injection Hl as <-. discriminate. }
  apply (proj1 (proj2 (methods_keep_causes_wrapped (H := plain) 0 w inner_example
                         Hw eq_refl)) 0%nat jsonType).
Defined.

